(** * Graph search over a depth-first frontier

    A shallow embedding of [searchclient/strategies/dfs.py] (class
    [FrontierDFS]) and of [searchclient/search_algorithms/graph_search.py]
    (functions [graph_search] and [print_search_status]), followed by the
    properties of the search loop, of the frontier and of the statistics
    that the result tuple carries.

    Conventions.  Python [int] is [Z]; Python [float] is idealised as an exact
    rational [Q]; [str] is [string]; a Python [list] is a [list] whose last
    element is the one [append] added last; a Python [set] of states is a
    [gset] of their configurations (states compare and hash by value).
    Exceptions are values of [exn]. *)

From Stdlib Require Import ZArith QArith Qround String Ascii.
From Stdlib Require Import DecimalString DecimalN List Lia.
From Stdlib Require DecimalFacts DecimalPos.
From Stdlib Require Import Lqa.
From stdpp Require Import gmap list relations.
Close Scope Q_scope.
#[local] Set Warnings "-clear-no-such-hyp".

(** ** The Python runtime pieces the two files rely on *)

Module Py.

(** The built-in exceptions that the modelled code can raise. *)
Inductive exn := IndexError | KeyError | ValueError.

(** A call either returns, raises, or is cut off by the fuel of the model. *)
Inductive outcome (A : Type) :=
| Returns (a : A)
| Raises (e : exn)
| OutOfFuel.
Arguments Returns {A} a.
Arguments Raises {A} e.
Arguments OutOfFuel {A}.

(** A number in a result tuple is an [int] or a [float]. *)
Inductive num := PyInt (z : Z) | PyFloat (q : Q).

(** [s.replace(old, new)] for one-character [old] and [new]. *)
Fixpoint replace (old new : ascii) (s : string) : string :=
  match s with
  | EmptyString => EmptyString
  | String c s' =>
      String (if Ascii.eqb c old then new else c) (replace old new s')
  end.

(** Decimal digits of a non-negative integer, no leading zero. *)
Definition digits (n : N) : string :=
  NilEmpty.string_of_uint (N.to_uint n).

Fixpoint repeat_char (c : ascii) (k : nat) : string :=
  match k with
  | O => EmptyString
  | S k' => String c (repeat_char c k')
  end.

(** Right-alignment in a field of [w] characters, filled with [fill]. *)
Definition rjust (fill : ascii) (w : nat) (s : string) : string :=
  (repeat_char fill (w - String.length s) ++ s)%string.

(** The [,] option of the format mini-language: reading the digits from the
    right, a comma follows every complete group of three that still has a
    digit to its left. *)
Fixpoint group3 (rev_digits : list ascii) : list ascii :=
  match rev_digits with
  | a :: b :: c :: rest =>
      match rest with
      | [] => rev_digits
      | _ :: _ => a :: b :: c :: ","%char :: group3 rest
      end
  | _ => rev_digits
  end.

Definition with_commas (s : string) : string :=
  string_of_list_ascii (rev (group3 (rev (list_ascii_of_string s)))).

Definition sign_prefix (negative : bool) : string :=
  if negative then "-"%string else EmptyString.

(** [f"{n:8,d}"] *)
Definition format_8_comma_d (n : Z) : string :=
  rjust " " 8
    (sign_prefix (n <? 0)%Z ++ with_commas (digits (Z.abs_N n)))%string.

(** Rounding to the nearest integer, ties to even: what the correctly
    rounded [%f] conversion does with the exact value it is given. *)
Definition round_half_even (x : Q) : Z :=
  let f := Qfloor x in
  match Qcompare (x - inject_Z f) (1 # 2) with
  | Lt => f
  | Gt => (f + 1)%Z
  | Eq => if Z.even f then f else (f + 1)%Z
  end.

Definition Qneg (x : Q) : bool := (Qnum x <? 0)%Z.

(** [f"{x:3.3f}"]: three digits after the point; the field width 3 never
    pads, the text having five characters at least. *)
Definition format_3_3f (x : Q) : string :=
  let m := Z.abs_N (round_half_even (x * 1000)) in
  rjust " " 3
    (sign_prefix (Qneg x) ++ digits (m / 1000) ++ "."
       ++ rjust "0" 3 (digits (m mod 1000)))%string.

Definition is_space (c : ascii) : bool :=
  match nat_of_ascii c with
  | 9 | 10 | 11 | 12 | 13 | 32 => true
  | _ => false
  end.

Fixpoint lstrip (s : string) : string :=
  match s with
  | EmptyString => EmptyString
  | String c s' => if is_space c then lstrip s' else s
  end.

Fixpoint rstrip (s : string) : string :=
  match s with
  | EmptyString => EmptyString
  | String c s' =>
      match rstrip s' with
      | EmptyString => if is_space c then EmptyString else String c EmptyString
      | r => String c r
      end
  end.

Definition split_sign (s : string) : bool * string :=
  match s with
  | String "-" s' => (true, s')
  | String "+" s' => (false, s')
  | _ => (false, s)
  end.

(** The text before the first point, and the text after it if there is
    one. *)
Fixpoint split_dot (s : string) : string * option string :=
  match s with
  | EmptyString => (EmptyString, None)
  | String c s' =>
      if Ascii.eqb c "." then (EmptyString, Some s')
      else let '(a, b) := split_dot s' in (String c a, b)
  end.

(** [float(s)] on plain decimal literals: optional blanks around an
    optional sign, digits, and optionally a point and more digits, with a
    digit somewhere.  Everything else is [None], Python's [ValueError];
    the exponent, [inf], [nan] and underscore forms that Python also reads
    are never produced by the formatters above. *)
Definition float (s : string) : option Q :=
  let '(negative, body) := split_sign (rstrip (lstrip s)) in
  let '(ip, fp) := split_dot body in
  let fp := default EmptyString fp in
  match NilEmpty.uint_of_string ip, NilEmpty.uint_of_string fp with
  | Some di, Some df =>
      if (String.length ip + String.length fp =? 0)%nat then None
      else
        let scale := Z.to_pos (10 ^ Z.of_nat (String.length fp)) in
        let v := (Z.of_N (N.of_uint di) * Z.pos scale
                  + Z.of_N (N.of_uint df))%Z in
        Some (Qmake (if negative then - v else v)%Z scale)
  | _, _ => None
  end.

(** What [float] makes of the text of [format_3_3f] once the two
    replacements have cancelled: the value rounded to thousandths. *)
Definition round3 (x : Q) : Q := Qmake (round_half_even (x * 1000)) 1000.

(** The number [graph_search] gets for a count [n] that went through
    [print_search_status]: the grouped text with points for commas, read
    back as a [float]. *)
Definition reported_count (n : Z) : option Q :=
  float (replace "," "." (format_8_comma_d n)).

(** Character classes used to reason about the texts. *)
Definition is_digit (c : ascii) : bool :=
  (48 <=? nat_of_ascii c)%nat && (nat_of_ascii c <=? 57)%nat.

Fixpoint all_chars (P : ascii → bool) (s : string) : bool :=
  match s with
  | EmptyString => true
  | String c s' => P c && all_chars P s'
  end.

Definition is_numeric (c : ascii) : bool :=
  is_digit c || Ascii.eqb c "-" || Ascii.eqb c ".".

(** The zero-filled fraction of [format_3_3f] for [k] thousandths reads
    back as [k], has three characters and only digits. *)
Definition fraction_ok (k : N) : bool :=
  let s := rjust "0" 3 (digits k) in
  match NilEmpty.uint_of_string s with
  | Some d =>
      N.eqb (N.of_uint d) k && (String.length s =? 3)%nat
      && all_chars is_digit s
  | None => false
  end.

(** A count below one thousand comes back from [reported_count] as
    itself. *)
Definition count_ok (n : Z) : bool :=
  match reported_count n with
  | Some q => Qeq_bool q (inject_Z n) && (Qden q =? 1)%positive
  | None => false
  end.

(** How often the character [c] occurs in [s]. *)
Fixpoint count_char (c : ascii) (s : string) : nat :=
  match s with
  | EmptyString => 0
  | String c' s' => (if Ascii.eqb c' c then 1 else 0) + count_char c s'
  end.

(** A number below one thousand has at most three digits. *)
Definition short_ok (k : N) : bool := (String.length (digits k) <=? 3)%nat.

End Py.


(** ** The domain, as far as the search loop sees it *)

(** Modelled from the spec: the class [HospitalState] of
    [domains/hospital/state.py] is not among the sources.  A state is a
    world configuration together with the link to the state it was generated
    from (none for a root), the joint action that produced it and the cost of
    the path to it.  States compare and hash by their configuration. *)
#[warnings="-register-all"]
Inductive HospitalState (Config Action : Type) : Type :=
  MkState {
    conf : Config;
    parent : option (HospitalState Config Action);
    joint_action : list Action;
    path_cost : Z
  }.
Arguments MkState {Config Action} conf parent joint_action path_cost.
Arguments conf {Config Action} h.
Arguments parent {Config Action} h.
Arguments joint_action {Config Action} h.
Arguments path_cost {Config Action} h.

(** Modelled from the spec: [HospitalState.extract_plan], which walks the
    parent links from the state back to the root and returns the joint
    actions met on the way in root-first order. *)
Fixpoint extract_plan {Config Action : Type}
  (s : HospitalState Config Action) : list (list Action) :=
  match parent s with
  | None => []
  | Some p => extract_plan p ++ [joint_action s]
  end.

(** [initial_state.parent = None; initial_state.path_cost = 0] *)
Definition make_root {Config Action : Type}
  (s : HospitalState Config Action) : HospitalState Config Action :=
  MkState (conf s) None (joint_action s) 0.

(** ** [strategies/dfs.py] *)

Module FrontierDFS.
Section Class.
Context {Config Action : Type} `{Countable Config}.
Abbreviation State := (HospitalState Config Action).

(** The two attributes of an instance. *)
Record t : Type := Build { stack : list State; set : gset Config }.

(** [__init__] *)
Definition init : t := {| stack := []; set := ∅ |}.

(** [prepare]: both containers are cleared, the goal is not looked at. *)
Definition prepare {Goal : Type} (self : t) (goal_description : Goal) : t :=
  {| stack := []; set := ∅ |}.

(** [add] *)
Definition add (self : t) (state : State) : t :=
  {| stack := stack self ++ [state]; set := {[conf state]} ∪ set self |}.

(** [list.pop()]: the last element, [IndexError] on an empty list. *)
Definition list_pop {A : Type} (l : list A) : Py.exn + (A * list A) :=
  match rev l with
  | [] => inl Py.IndexError
  | x :: r => inr (x, rev r)
  end.

(** [set.remove(x)]: [KeyError] when [x] is not a member. *)
Definition set_remove (x : Config) (X : gset Config)
  : Py.exn + gset Config :=
  if decide (x ∈ X) then inr (X ∖ {[x]}) else inl Py.KeyError.

(** [pop].  The instance is returned in both cases: when [set.remove]
    raises, the stack has already lost its last element. *)
Definition pop (self : t) : (Py.exn + State) * t :=
  match list_pop (stack self) with
  | inl e => (inl e, self)
  | inr (state, stack') =>
      match set_remove (conf state) (set self) with
      | inl e => (inl e, {| stack := stack'; set := set self |})
      | inr set' => (inr state, {| stack := stack'; set := set' |})
      end
  end.

(** [is_empty] *)
Definition is_empty (self : t) : bool := (length (stack self) =? 0)%nat.

(** [size] *)
Definition size (self : t) : Z := Z.of_nat (length (stack self)).

(** [contains] *)
Definition contains (self : t) (state : State) : bool :=
  bool_decide (conf state ∈ set self).

(** *** Call sequences on one instance *)

Inductive call : Type :=
| Prepare
| Add (state : State)
| Pop.

Definition do_call (c : call) (self : t) : (Py.exn + option State) * t :=
  match c with
  | Prepare => (inr None, prepare self tt)
  | Add s => (inr None, add self s)
  | Pop =>
      match pop self with
      | (inl e, self') => (inl e, self')
      | (inr s, self') => (inr (Some s), self')
      end
  end.

(** Runs the calls in order and stops at the first one that raises. *)
Fixpoint do_calls (cs : list call) (self : t) : option Py.exn * t :=
  match cs with
  | [] => (None, self)
  | c :: cs' =>
      match do_call c self with
      | (inl e, self') => (Some e, self')
      | (inr _, self') => do_calls cs' self'
      end
  end.

(** What the callers owe: [add] only for a state that [contains] denies,
    [pop] only when [is_empty] is false. *)
Definition call_allowed (c : call) (self : t) : bool :=
  match c with
  | Prepare => true
  | Add s => negb (contains self s)
  | Pop => negb (is_empty self)
  end.

Fixpoint calls_allowed (cs : list call) (self : t) : bool :=
  match cs with
  | [] => true
  | c :: cs' =>
      call_allowed c self && calls_allowed cs' (snd (do_call c self))
  end.

Definition is_add (c : call) : bool :=
  match c with Add _ => true | _ => false end.
Definition is_pop (c : call) : bool :=
  match c with Pop => true | _ => false end.
Definition is_prepare (c : call) : bool :=
  match c with Prepare => true | _ => false end.

Definition count_calls (p : call → bool) (cs : list call) : Z :=
  Z.of_nat (length (filter (λ c, p c = true) cs)).

(** [add] for each state of a list in turn, and [k] times [pop] in a row
    with the states in the order in which they come out. *)
Definition add_all (states : list State) (self : t) : t :=
  fold_left add states self.

Fixpoint pop_n (k : nat) (self : t) : (Py.exn + list State) * t :=
  match k with
  | O => (inr [], self)
  | S k' =>
      match pop self with
      | (inl e, self') => (inl e, self')
      | (inr state, self') =>
          match pop_n k' self' with
          | (inl e, self'') => (inl e, self'')
          | (inr states, self'') => (inr (state :: states), self'')
          end
      end
  end.

(** The class invariant: the stack holds no configuration twice and the
    set holds exactly the configurations on the stack. *)
Definition consistent (self : t) : Prop :=
  NoDup (conf <$> stack self)
  ∧ ∀ c : Config, c ∈ set self ↔ c ∈ (conf <$> stack self).

End Class.
Arguments t Config Action {_ _}.
End FrontierDFS.

(** ** [search_algorithms/graph_search.py] *)

(** The effects whose order matters for the timing of a run: a reading of the
    wall clock and the reset of the frontier. *)
Inductive event : Type :=
| EvClock (t : Q)
| EvPrepare.

(** What lives outside the call: how many times the wall clock has been read,
    the module-level variable [start_time], and the record of the effects so
    far. *)
Record world : Type := World {
  reads : nat;
  start_time : Q;
  log : list event
}.

Section GraphSearch.
Context {Config Action Goal : Type} `{Countable Config}.
Abbreviation State := (HospitalState Config Action).
Abbreviation Plan := (list (list Action)).

(** The capabilities of the domain, which is not among the sources: the
    joint actions applicable in a configuration given the action
    catalogue, the configuration a joint action leads to, and the goal
    test. *)
Variable applicable : Config → list (list Action) → list (list Action).
Variable transition : Config → list Action → Config.
Variable goal_test : Goal → Config → bool.

(** The wall clock: [clock k] is what the [k]-th reading returns. *)
Variable clock : nat → Q.

(** [state.get_applicable_actions(action_set)] *)
Definition get_applicable_actions (s : State) (action_set : Plan) : Plan :=
  applicable (conf s) action_set.

(** Modelled from the spec: [state.result(action)], the deterministic
    successor; the new state is linked to the state it was generated from
    and remembers the joint action, one step further down the path. *)
Definition result (s : State) (action : list Action) : State :=
  MkState (transition (conf s) action) (Some s) action (path_cost s + 1).

(** [goal_description.is_goal(node)] *)
Definition is_goal (goal_description : Goal) (node : State) : bool :=
  goal_test goal_description (conf node).

(** [time.time()] *)
Definition time_time (w : world) : Q * world :=
  let now := clock (reads w) in
  (now, {| reads := S (reads w); start_time := start_time w;
           log := log w ++ [EvClock now] |}).

Definition set_start_time (t : Q) (w : world) : world :=
  {| reads := reads w; start_time := t; log := log w |}.

Definition record_event (e : event) (w : world) : world :=
  {| reads := reads w; start_time := start_time w; log := log w ++ [e] |}.

(** [print_search_status(expanded, frontier)].  The pair of texts it
    returns is modelled in full.  The status line it writes to [stderr],
    and the memory probe that only that line uses, have no influence on
    the pair and are left out. *)
Definition print_search_status {A : Type} (expanded : list A)
  (frontier : FrontierDFS.t Config Action) (w : world)
  : (string * string) * world :=
  let w :=
    if (length expanded =? 0)%nat
    then let '(now, w') := time_time w in set_start_time now w'
    else w in
  let num_generated :=
    Py.replace "," "."
      (Py.format_8_comma_d
         (Z.of_nat (length expanded) + FrontierDFS.size frontier)) in
  let '(now, w) := time_time w in
  let elapsed_time :=
    Py.replace "." "," (Py.format_3_3f (now - start_time w)%Q) in
  ((num_generated, elapsed_time), w).

(** The local variables of [graph_search] together with the frontier
    object and the world. *)
Record search : Type := Search {
  frontier : FrontierDFS.t Config Action;
  explored : gset Config;
  iterations : Z;
  outside : world
}.

(** The result tuple: success, plan, number of generated states, elapsed
    seconds. *)
Definition answer : Type := bool * Plan * Py.num * Q.

(** Lines 81 to 84: the frontier is empty. *)
Definition return_exhausted (st : search) : Py.outcome answer * search :=
  let '(now, w) := time_time (outside st) in
  let elapsed_time := (now - start_time w)%Q in
  (Py.Returns (false, [], Py.PyInt (iterations st), elapsed_time),
   {| frontier := frontier st; explored := explored st;
      iterations := iterations st; outside := w |}).

(** Lines 91 to 102: [leaf] passes the goal test. *)
Definition return_goal (goal_description : Goal) (leaf : State)
  (st : search) : Py.outcome answer * search :=
  let '((num_generated_str, elapsed_time_str), w) :=
    print_search_status (extract_plan leaf) (frontier st) (outside st) in
  let st' := {| frontier := frontier st; explored := explored st;
                iterations := iterations st; outside := w |} in
  match Py.float num_generated_str with
  | None => (Py.Raises Py.ValueError, st')
  | Some num_generated =>
      match Py.float (Py.replace "," "." elapsed_time_str) with
      | None => (Py.Raises Py.ValueError, st')
      | Some elapsed_time =>
          (Py.Returns (is_goal goal_description leaf, extract_plan leaf,
                       Py.PyFloat num_generated, elapsed_time), st')
      end
  end.

(** Lines 111 to 115: the body of the [for] loop. *)
Definition expand_child (leaf : State) (explored : gset Config)
  (frontier : FrontierDFS.t Config Action) (action : list Action)
  : FrontierDFS.t Config Action :=
  let child_state := result leaf action in
  if negb (bool_decide (conf child_state ∈ explored))
     && negb (FrontierDFS.contains frontier child_state)
  then FrontierDFS.add frontier child_state
  else frontier.

(** Lines 79 to 115: the [while True] loop, one unit of fuel per
    iteration. *)
Fixpoint search_loop (fuel : nat) (action_set : Plan)
  (goal_description : Goal) (st : search) : Py.outcome answer * search :=
  match fuel with
  | O => (Py.OutOfFuel, st)
  | S fuel' =>
      if FrontierDFS.is_empty (frontier st) then return_exhausted st
      else
        match FrontierDFS.pop (frontier st) with
        | (inl e, fr) =>
            (Py.Raises e,
             {| frontier := fr; explored := explored st;
                iterations := iterations st; outside := outside st |})
        | (inr leaf, fr) =>
            let st1 := {| frontier := fr; explored := explored st;
                          iterations := iterations st + 1;
                          outside := outside st |} in
            if is_goal goal_description leaf
            then return_goal goal_description leaf st1
            else
              let explored' := {[conf leaf]} ∪ explored st1 in
              let leaf_actions := get_applicable_actions leaf action_set in
              let fr' :=
                fold_left (expand_child leaf explored') leaf_actions fr in
              search_loop fuel' action_set goal_description
                {| frontier := fr'; explored := explored';
                   iterations := iterations st1; outside := outside st1 |}
        end
  end.

(** Lines 39 to 53: what happens before the loop. *)
Definition enter (initial_state : State) (goal_description : Goal)
  (frontier : FrontierDFS.t Config Action) (w : world) : search :=
  let '(now, w) := time_time w in
  let w := set_start_time now w in
  let iterations := 0%Z in
  let frontier := FrontierDFS.prepare frontier goal_description in
  let w := record_event EvPrepare w in
  let initial_state := make_root initial_state in
  let explored : gset Config := ∅ in
  let frontier := FrontierDFS.add frontier initial_state in
  {| frontier := frontier; explored := explored;
     iterations := iterations; outside := w |}.

(** [graph_search].  Next to the outcome the model hands back the frontier
    object, the local variables and the world as they are when the call
    ends. *)
Definition graph_search (fuel : nat) (initial_state : State)
  (action_set : Plan) (goal_description : Goal)
  (frontier : FrontierDFS.t Config Action) (w : world)
  : Py.outcome answer * search :=
  search_loop fuel action_set goal_description
    (enter initial_state goal_description frontier w).

(** *** The loop, one statement at a time *)

(** The places in the loop where the frontier and the explored set can be
    looked at. *)
Inductive point : Type :=
| AtWhile (st : search)
    (* line 79: about to test the frontier *)
| AtGoalTest (leaf : State) (st : search)
    (* line 91: [leaf] popped and counted, not yet tested *)
| AtFor (leaf : State) (todo : Plan) (st : search)
    (* line 109: [leaf] explored, [todo] the actions still to try *)
| Finished (o : Py.outcome answer) (st : search).

Definition search_of (p : point) : search :=
  match p with
  | AtWhile st | AtGoalTest _ st | AtFor _ _ st | Finished _ st => st
  end.

Definition step (action_set : Plan) (goal_description : Goal) (p : point)
  : option point :=
  match p with
  | AtWhile st =>
      if FrontierDFS.is_empty (frontier st)
      then Some (uncurry Finished (return_exhausted st))
      else
        match FrontierDFS.pop (frontier st) with
        | (inl e, fr) =>
            Some (Finished (Py.Raises e)
                    {| frontier := fr; explored := explored st;
                       iterations := iterations st;
                       outside := outside st |})
        | (inr leaf, fr) =>
            Some (AtGoalTest leaf
                    {| frontier := fr; explored := explored st;
                       iterations := iterations st + 1;
                       outside := outside st |})
        end
  | AtGoalTest leaf st =>
      if is_goal goal_description leaf
      then Some (uncurry Finished (return_goal goal_description leaf st))
      else
        Some (AtFor leaf (get_applicable_actions leaf action_set)
                {| frontier := frontier st;
                   explored := {[conf leaf]} ∪ explored st;
                   iterations := iterations st; outside := outside st |})
  | AtFor leaf [] st => Some (AtWhile st)
  | AtFor leaf (action :: todo) st =>
      Some (AtFor leaf todo
              {| frontier :=
                   expand_child leaf (explored st) (frontier st) action;
                 explored := explored st;
                 iterations := iterations st; outside := outside st |})
  | Finished _ _ => None
  end.

(** One statement leads from [p] to [q]. *)
Definition steps_to (action_set : Plan) (goal_description : Goal)
  (p q : point) : Prop :=
  step action_set goal_description p = Some q.

(** The points a call of [graph_search] passes through. *)
Definition visits (initial_state : State) (action_set : Plan)
  (goal_description : Goal) (frontier : FrontierDFS.t Config Action)
  (w : world) (p : point) : Prop :=
  rtc (steps_to action_set goal_description)
    (AtWhile (enter initial_state goal_description frontier w)) p.

(** The point reached after [n] statements, or the end of the call if it
    comes earlier. *)
Fixpoint advance (n : nat) (action_set : Plan) (goal_description : Goal)
  (p : point) : point :=
  match n with
  | O => p
  | S n' =>
      match step action_set goal_description p with
      | Some q => advance n' action_set goal_description q
      | None => p
      end
  end.

(** *** What the properties are stated with *)

(** The plan can be carried out from configuration [c]: each joint action
    is applicable where it is taken, and the last one leads to [c']. *)
Inductive executes (action_set : Plan) : Config → Plan → Config → Prop :=
| executes_nil c : executes action_set c [] c
| executes_cons c a plan c' :
    a ∈ applicable c action_set →
    executes action_set (transition c a) plan c' →
    executes action_set c (a :: plan) c'.

(** The state was generated from a root of configuration [c0] by
    applicable joint actions. *)
Inductive descends (action_set : Plan) (c0 : Config) : State → Prop :=
| descends_root s : parent s = None → conf s = c0 →
                    descends action_set c0 s
| descends_child p a :
    descends action_set c0 p →
    a ∈ applicable (conf p) action_set →
    descends action_set c0 (result p a).

(** What holds of the frontier and the explored set throughout a run. *)
Definition core_inv (action_set : Plan) (goal_description : Goal)
  (c0 : Config) (st : search) : Prop :=
  FrontierDFS.consistent (frontier st)
  ∧ FrontierDFS.set (frontier st) ## explored st
  ∧ Forall (descends action_set c0) (FrontierDFS.stack (frontier st))
  ∧ ∀ c, c ∈ explored st → goal_test goal_description c = false.

(** The counter counts the explored states, plus the popped state that is
    not yet tested. *)
Definition counted (pending : Z) (st : search) : Prop :=
  iterations st = (Z.of_nat (size (explored st)) + pending)%Z.

Definition point_inv (action_set : Plan) (goal_description : Goal)
  (c0 : Config) (p : point) : Prop :=
  match p with
  | AtWhile st =>
      core_inv action_set goal_description c0 st ∧ counted 0 st
  | AtGoalTest leaf st =>
      core_inv action_set goal_description c0 st ∧ counted 1 st
      ∧ descends action_set c0 leaf
      ∧ (conf leaf ∉ FrontierDFS.set (frontier st))
      ∧ (conf leaf ∉ explored st)
  | AtFor leaf todo st =>
      core_inv action_set goal_description c0 st ∧ counted 0 st
      ∧ descends action_set c0 leaf
      ∧ ∀ a, a ∈ todo → a ∈ applicable (conf leaf) action_set
  | Finished _ st => core_inv action_set goal_description c0 st
  end.

(** Two outcomes that differ at most in the elapsed time. *)
Definition same_but_time (a b : Py.outcome answer) : Prop :=
  match a, b with
  | Py.Returns (ok1, plan1, n1, _), Py.Returns (ok2, plan2, n2, _) =>
      ok1 = ok2 ∧ plan1 = plan2 ∧ n1 = n2
  | Py.Raises e1, Py.Raises e2 => e1 = e2
  | Py.OutOfFuel, Py.OutOfFuel => True
  | _, _ => False
  end.

(** The elapsed time runs from the completion of [prepare]: the clock is
    read right after the reset, the run ends with another reading, and the
    time is the difference of the two, as it is or rounded to
    thousandths. *)
Definition measured_since_prepare (events : list event) (elapsed : Q)
  : Prop :=
  ∃ before t0 between t1,
    events = before ++ EvPrepare :: EvClock t0 :: between ++ [EvClock t1]
    ∧ (elapsed = (t1 - t0)%Q ∨ elapsed = Py.round3 (t1 - t0)%Q).

(** *** Further notions about a run *)

(** Line 87 and 88: the state of the search once [leaf] has been popped,
    leaving the frontier [fr], and has been counted. *)
Definition popped (fr : FrontierDFS.t Config Action) (st : search) : search :=
  {| frontier := fr; explored := explored st;
     iterations := iterations st + 1; outside := outside st |}.

(** Lines 105 to 115: [leaf] joins the explored set and its successors are
    offered to the frontier in the order of the applicable actions. *)
Definition expand (action_set : Plan) (leaf : State) (st : search) : search :=
  let explored' := {[conf leaf]} ∪ explored st in
  {| frontier :=
       fold_left (expand_child leaf explored')
         (get_applicable_actions leaf action_set) (frontier st);
     explored := explored'; iterations := iterations st;
     outside := outside st |}.

(** The configurations that applicable joint actions lead to from [c0]. *)
Inductive reachable (action_set : Plan) (c0 : Config) : Config → Prop :=
| reachable_start : reachable action_set c0 c0
| reachable_step c a :
    reachable action_set c0 c →
    a ∈ applicable c action_set →
    reachable action_set c0 (transition c a).

(** Between two passes of the loop: the initial configuration has been
    discovered, what is explored is reachable, and every successor of an
    explored configuration is explored or waits in the frontier. *)
Definition closed_inv (action_set : Plan) (c0 : Config) (st : search)
  : Prop :=
  (c0 ∈ explored st ∨ c0 ∈ FrontierDFS.set (frontier st))
  ∧ (∀ c, c ∈ explored st → reachable action_set c0 c)
  ∧ (∀ c a, c ∈ explored st → a ∈ applicable c action_set →
            transition c a ∈ explored st
            ∨ transition c a ∈ FrontierDFS.set (frontier st)).

(** The configurations on the way from the root to a state, the state's own
    included, and without it. *)
Fixpoint path_confs (s : State) : list Config :=
  match parent s with
  | None => [conf s]
  | Some p => path_confs p ++ [conf s]
  end.

Definition ancestors (s : State) : list Config :=
  match parent s with
  | None => []
  | Some p => path_confs p
  end.

(** The configurations that carrying out a plan from [c] passes through,
    [c] first. *)
Fixpoint visited (c : Config) (plan : Plan) : list Config :=
  match plan with
  | [] => [c]
  | a :: plan' => c :: visited (transition c a) plan'
  end.

(** Between two passes of the loop: the ancestors of a state in the frontier
    are explored, and no two of them have the same configuration. *)
Definition acyclic_inv (st : search) : Prop :=
  Forall (λ s, NoDup (ancestors s) ∧ ∀ c, c ∈ ancestors s → c ∈ explored st)
    (FrontierDFS.stack (frontier st)).

End GraphSearch.

(** ** A small concrete domain

    One agent on the positions [0 .. 4] of a corridor; an action is the
    number of cells to advance; the goal is to stand on a given cell. *)
Module Corridor.

Definition applicable (c : nat) (action_set : list (list nat))
  : list (list nat) :=
  match action_set with
  | [agent_actions] =>
      (λ d, [d]) <$> filter (λ d, c + d ≤ 4) agent_actions
  | _ => []
  end.

Definition transition (c : nat) (action : list nat) : nat :=
  c + foldr Nat.add 0 action.

Definition goal_test (g c : nat) : bool := (c =? g)%nat.

(** A clock that advances by a quarter of a second between readings. *)
Definition clock (k : nat) : Q := Z.of_nat k # 4.

Definition action_set : list (list nat) := [[1; 2]].

Definition start : HospitalState nat nat := MkState 0 None [] 0.

Definition fresh_world : world :=
  {| reads := 0; start_time := 0; log := [] |}.

(** A second state, one cell further. *)
Definition next : HospitalState nat nat := MkState 1 (Some start) [1] 1.

(** Calls on a frontier that keep to the contract, without and with a
    [prepare] among them. *)
Definition stack_calls : list (@FrontierDFS.call nat nat) :=
  [FrontierDFS.Add start; FrontierDFS.Add next; FrontierDFS.Pop].

Definition reuse_calls : list (@FrontierDFS.call nat nat) :=
  [FrontierDFS.Add start; FrontierDFS.Add next; FrontierDFS.Pop;
   FrontierDFS.Prepare; FrontierDFS.Add next].

(** The cells of the corridor. *)
Definition cells : gset nat := list_to_set (seq 0 5).

(** A frontier whose set has lost the state that is on its stack. *)
Definition stale : FrontierDFS.t nat nat :=
  {| FrontierDFS.stack := [start]; FrontierDFS.set := ∅ |}.

(** Calls that break the contract of [add]: the same state twice. *)
Definition duplicate_calls : list (@FrontierDFS.call nat nat) :=
  [FrontierDFS.Add start; FrontierDFS.Add start; FrontierDFS.Pop;
   FrontierDFS.Pop].

(** The search for cell 3 after two statements: the start state is
    explored and its two successors are about to be looked at. *)
Definition in_for_loop : @point nat nat _ _ :=
  advance applicable transition goal_test clock 2 action_set 3
    (AtWhile (enter clock start 3 FrontierDFS.init fresh_world)).

Abbreviation run fuel from goal :=
  (graph_search applicable transition goal_test clock fuel from action_set
     goal FrontierDFS.init fresh_world).

End Corridor.


(** ** A second concrete domain

    One agent in a hub, configuration 0, that can jump to any of the cells
    its actions name; from a cell there is no way on.  The search from the
    hub finds every cell in the frontier at once. *)
Module Star.

Definition applicable (c : nat) (action_set : list (list nat))
  : list (list nat) :=
  match action_set with
  | [agent_actions] =>
      if (c =? 0)%nat then (λ d, [d]) <$> agent_actions else []
  | _ => []
  end.

Definition transition (c : nat) (action : list nat) : nat :=
  match action with
  | [d] => d
  | _ => c
  end.

Definition goal_test (g c : nat) : bool := (c =? g)%nat.

(** The actions that name the cells [1] to [n]. *)
Definition cells (n : nat) : list (list nat) := [seq 1 n].

Definition hub : HospitalState nat nat := MkState 0 None [] 0.

(** The state reached by the jump to cell [d]. *)
Definition cell (d : nat) : HospitalState nat nat :=
  result transition hub [d].

End Star.

(** * Properties *)

(** ** Texts and numbers *)

Section PyFacts.
Import Py.

Lemma all_chars_app P a b :
  all_chars P (a ++ b)%string = all_chars P a && all_chars P b.
Proof.
  induction a as [|c a IH]; simpl; [done|].
  by rewrite IH, andb_assoc.
Qed.

Lemma all_chars_impl (P R : ascii → bool) s :
  (∀ c, P c = true → R c = true) →
  all_chars P s = true → all_chars R s = true.
Proof.
  intros HPR. induction s as [|c s IH]; simpl; [done|].
  rewrite !andb_true_iff. intros [Hc Hs]. auto.
Qed.

Lemma all_chars_repeat P c k :
  P c = true → all_chars P (repeat_char c k) = true.
Proof. intros Hc. induction k; simpl; [done|]. by rewrite Hc. Qed.

Lemma digits_of_uint d :
  all_chars is_digit (NilEmpty.string_of_uint d) = true.
Proof. induction d; simpl; auto. Qed.

Lemma digits_are_digits n : all_chars is_digit (digits n) = true.
Proof. apply digits_of_uint. Qed.

Lemma digits_cons n :
  ∃ c s, digits n = String c s ∧ is_digit c = true.
Proof.
  unfold digits.
  assert (Hnil : N.to_uint n ≠ Decimal.Nil).
  { destruct n as [|p]; simpl; [done|]. apply DecimalPos.Unsigned.to_uint_nonnil. }
  destruct (N.to_uint n); try done; simpl; eauto.
Qed.

Lemma digits_read n :
  NilEmpty.uint_of_string (digits n) = Some (N.to_uint n).
Proof. apply NilEmpty.usu. Qed.

Lemma is_numeric_not_space c : is_numeric c = true → is_space c = false.
Proof.
  destruct c as [[] [] [] [] [] [] [] []]; vm_compute; congruence.
Qed.

Lemma is_numeric_not_comma c :
  is_numeric c = true → Ascii.eqb c "," = false.
Proof.
  destruct c as [[] [] [] [] [] [] [] []]; vm_compute; congruence.
Qed.

Lemma is_digit_numeric c : is_digit c = true → is_numeric c = true.
Proof. unfold is_numeric. intros ->. done. Qed.

Lemma is_digit_not_dot c : is_digit c = true → Ascii.eqb c "." = false.
Proof.
  destruct c as [[] [] [] [] [] [] [] []]; vm_compute; congruence.
Qed.

Lemma lstrip_id s :
  all_chars (λ c, negb (is_space c)) s = true → lstrip s = s.
Proof.
  destruct s as [|c s]; simpl; [done|].
  rewrite andb_true_iff, negb_true_iff. by intros [-> _].
Qed.

Lemma rstrip_id s :
  all_chars (λ c, negb (is_space c)) s = true → rstrip s = s.
Proof.
  induction s as [|c s IH]; simpl; [done|].
  rewrite andb_true_iff, negb_true_iff. intros [Hc Hs].
  rewrite (IH Hs), Hc. by destruct s.
Qed.

(** Turning the points into commas and the commas back into points gives
    the text back when it had no comma to begin with. *)
Lemma replace_back s :
  all_chars (λ c, negb (Ascii.eqb c ",")) s = true →
  replace "," "." (replace "." "," s) = s.
Proof.
  induction s as [|c s IH]; simpl; [done|].
  rewrite andb_true_iff, negb_true_iff. intros [Hc Hs].
  rewrite (IH Hs). f_equal.
  destruct (Ascii.eqb c ".") eqn:Hdot.
  - apply Ascii.eqb_eq in Hdot. by subst.
  - by rewrite Hc.
Qed.

Lemma split_dot_digits a b :
  all_chars is_digit a = true →
  split_dot (a ++ String "." b)%string = (a, Some b).
Proof.
  induction a as [|c a IH]; simpl; [done|].
  rewrite andb_true_iff. intros [Hc Ha].
  by rewrite (is_digit_not_dot _ Hc), (IH Ha).
Qed.

(** Checked for each of the thousand values. *)
Lemma fraction_ok_all k : (k < 1000)%N → fraction_ok k = true.
Proof.
  intros Hk.
  assert (Hall : forallb fraction_ok (N.of_nat <$> seq 0 1000) = true)
    by (vm_compute; reflexivity).
  rewrite forallb_forall in Hall. apply Hall.
  apply list_elem_of_In, list_elem_of_fmap. exists (N.to_nat k).
  split; [by rewrite N2Nat.id|].
  apply list_elem_of_In, in_seq. lia.
Qed.

Lemma string_length_app a b :
  String.length (a ++ b)%string = String.length a + String.length b.
Proof. induction a as [|c a IH]; simpl; [done|]. by rewrite IH. Qed.

Lemma rjust_long fill w s : w ≤ String.length s → rjust fill w s = s.
Proof.
  intros Hw. unfold rjust.
  by replace (w - String.length s) with 0 by lia.
Qed.

(** The rounded value and the value it is rounded from never differ in
    sign, so the sign that is printed is the sign of what is read. *)
Lemma round_half_even_sign x :
  let r := round_half_even (x * 1000) in
  (if Qneg x then - Z.of_N (Z.abs_N r) else Z.of_N (Z.abs_N r))%Z = r.
Proof.
  destruct x as [n d]. unfold Qneg. simpl.
  rewrite N2Z.inj_abs_N.
  set (r := round_half_even ((n # d) * 1000)%Q).
  assert (Hr : ∃ f, (f = (n * 1000) `div` Z.pos (d * 1))%Z
               ∧ (r = f ∨ r = f + 1)%Z).
  { eexists; split; [reflexivity|]. unfold r, round_half_even. simpl.
    destruct (_ ?= _)%Q; [destruct (Z.even _)|..]; auto. }
  destruct Hr as (f & Hf & Hr).
  destruct (Z.ltb_spec n 0).
  - assert (f < 0)%Z by (subst f; apply Z.div_lt_upper_bound; lia).
    destruct Hr as [Hr | Hr]; lia.
  - assert (0 ≤ f)%Z by (subst f; apply Z.div_pos; lia).
    destruct Hr as [Hr | Hr]; lia.
Qed.

(** The elapsed time that [graph_search] reads back from the text of
    [print_search_status] is the measured difference rounded to
    thousandths. *)
Lemma float_elapsed x :
  float (replace "," "." (replace "." "," (format_3_3f x)))
  = Some (round3 x).
Proof.
  unfold format_3_3f.
  set (m := Z.abs_N (round_half_even (x * 1000))).
  set (D := digits (m `div` 1000)).
  set (F := rjust "0" 3 (digits (m `mod` 1000))).
  assert (Hk : (m `mod` 1000 < 1000)%N) by (apply N.mod_lt; lia).
  pose proof (fraction_ok_all _ Hk) as HF. unfold fraction_ok in HF.
  fold F in HF.
  destruct (NilEmpty.uint_of_string F) as [df|] eqn:HreadF; [|done].
  apply andb_true_iff in HF as [HF HFdig].
  apply andb_true_iff in HF as [HFval HFlen].
  apply N.eqb_eq in HFval. apply Nat.eqb_eq in HFlen.
  assert (HD : all_chars is_digit D = true) by apply digits_are_digits.
  set (body := (D ++ String "." F)%string).
  assert (Hbody : all_chars is_numeric body = true).
  { unfold body. rewrite all_chars_app. simpl.
    rewrite (all_chars_impl _ _ _ is_digit_numeric HD).
    by rewrite (all_chars_impl _ _ _ is_digit_numeric HFdig). }
  set (s := (sign_prefix (Qneg x) ++ body)%string).
  change (sign_prefix (Qneg x) ++ D ++ "." ++ F)%string with s.
  assert (Hs : all_chars is_numeric s = true).
  { unfold s. rewrite all_chars_app, Hbody. by destruct (Qneg x). }
  rewrite rjust_long.
  2:{ unfold s, body. rewrite !string_length_app. simpl. lia. }
  rewrite replace_back.
  2:{ apply (all_chars_impl is_numeric); [|done].
      intros c Hc. by rewrite (is_numeric_not_comma _ Hc). }
  unfold float.
  assert (Hns : all_chars (λ c, negb (is_space c)) s = true).
  { apply (all_chars_impl is_numeric); [|done].
    intros c Hc. by rewrite (is_numeric_not_space _ Hc). }
  rewrite (lstrip_id _ Hns), (rstrip_id _ Hns).
  assert (Hsign : split_sign s = (Qneg x, body)).
  { unfold s. destruct (Qneg x); simpl; [done|].
    unfold body. destruct (digits_cons (m `div` 1000)) as (c & r & Hc & Hd).
    fold D in Hc. rewrite Hc. simpl.
    destruct c as [[] [] [] [] [] [] [] []]; try done. }
  rewrite Hsign. unfold body. rewrite (split_dot_digits _ _ HD). simpl.
  unfold D at 1. rewrite digits_read, HreadF.
  rewrite string_length_app || idtac.
  destruct (String.length D + String.length F =? 0)%nat eqn:Hlen.
  { apply Nat.eqb_eq in Hlen. lia. }
  rewrite HFlen, DecimalN.Unsigned.of_to, HFval.
  unfold round3. f_equal.
  change (Z.to_pos (10 ^ Z.of_nat 3)) with 1000%positive.
  f_equal.
  rewrite <- (round_half_even_sign x). fold m.
  assert (Hm : (Z.of_N (m `div` 1000) * 1000 + Z.of_N (m `mod` 1000))%Z
               = Z.of_N m).
  { rewrite (N.Div0.div_mod m 1000) at 3. lia. }
  rewrite Hm. done.
Qed.

(** Counts below one thousand survive the detour through the text. *)
Lemma reported_count_small n :
  (0 ≤ n < 1000)%Z → reported_count n = Some (inject_Z n).
Proof.
  intros Hn.
  assert (Hall : forallb count_ok (Z.of_nat <$> seq 0 1000) = true)
    by (vm_compute; reflexivity).
  rewrite forallb_forall in Hall.
  assert (Hok : count_ok n = true).
  { apply Hall. apply list_elem_of_In, list_elem_of_fmap.
    exists (Z.to_nat n). split; [lia|]. apply list_elem_of_In, in_seq. lia. }
  unfold count_ok in Hok. destruct (reported_count n) as [[a b]|]; [|done].
  apply andb_true_iff in Hok as [Hq Hb].
  apply Qeq_bool_iff in Hq. apply Pos.eqb_eq in Hb. simpl in Hb. subst b.
  unfold Qeq in Hq. simpl in Hq. unfold inject_Z. f_equal. f_equal. lia.
Qed.

(** From one thousand on the grouping comma, turned into a point, is read
    as a decimal point. *)
Example reported_count_1234 : reported_count 1234 = Some (1234 # 1000)%Q.
Proof. reflexivity. Qed.

(** From one million on there are two points and [float] raises. *)
Example reported_count_1234567 : reported_count 1234567 = None.
Proof. reflexivity. Qed.

End PyFacts.

(** ** The depth-first frontier *)

Section FrontierFacts.
Context {Config Action : Type} `{Countable Config}.
Import FrontierDFS.
Implicit Types (f : FrontierDFS.t Config Action).
Implicit Types (s a b : HospitalState Config Action).
Implicit Types (k : @call Config Action) (cs : list (@call Config Action)).

Lemma list_pop_nil {A : Type} : list_pop (@nil A) = inl Py.IndexError.
Proof. reflexivity. Qed.

Lemma list_pop_snoc {A : Type} (l : list A) (x : A) :
  list_pop (l ++ [x]) = inr (x, l).
Proof.
  unfold list_pop. rewrite rev_unit. by rewrite rev_involutive.
Qed.

Lemma list_pop_inv {A : Type} (l : list A) :
  l ≠ [] → ∃ l' x, l = l' ++ [x].
Proof.
  intros Hl. destruct (rev l) as [|x r] eqn:Hrev.
  - apply (f_equal (@rev A)) in Hrev. rewrite rev_involutive in Hrev.
    by subst.
  - exists (rev r), x.
    apply (f_equal (@rev A)) in Hrev. rewrite rev_involutive in Hrev.
    by subst.
Qed.

Lemma is_empty_true f : is_empty f = true ↔ stack f = [].
Proof.
  unfold is_empty. rewrite Nat.eqb_eq. by destruct (stack f).
Qed.

Lemma is_empty_size f : is_empty f = true ↔ size f = 0%Z.
Proof. unfold is_empty, size. rewrite Nat.eqb_eq. lia. Qed.

Lemma contains_set f s : contains f s = true ↔ conf s ∈ set f.
Proof. unfold contains. apply bool_decide_eq_true. Qed.

Lemma init_consistent : consistent (init : FrontierDFS.t Config Action).
Proof.
  split; simpl; [constructor|]. intros c. set_solver.
Qed.

Lemma prepare_consistent {Goal : Type} f (g : Goal) :
  consistent (prepare f g).
Proof. apply init_consistent. Qed.

Lemma add_consistent f s :
  consistent f → contains f s = false → consistent (add f s).
Proof.
  intros [Hnd Hset] Hc.
  assert (Hnot : conf s ∉ set f).
  { intros Hin. apply contains_set in Hin. congruence. }
  split; simpl; rewrite fmap_app; simpl.
  - apply NoDup_app. split; [done|]. split; [|apply NoDup_singleton].
    intros c Hin ->%list_elem_of_singleton. by apply Hnot, Hset.
  - intros c. rewrite elem_of_union, elem_of_singleton, elem_of_app,
      list_elem_of_singleton, Hset. tauto.
Qed.

(** A pop of a consistent, non-empty frontier hands out the state on top
    of the stack and leaves a consistent frontier without it. *)
Lemma pop_consistent f :
  consistent f → is_empty f = false →
  ∃ s f', pop f = (inr s, f')
          ∧ stack f = stack f' ++ [s]
          ∧ set f' = set f ∖ {[conf s]}
          ∧ (conf s ∉ set f')
          ∧ consistent f'.
Proof.
  intros [Hnd Hset] Hne.
  assert (Hstack : stack f ≠ []).
  { intros Hnil. apply is_empty_true in Hnil. congruence. }
  destruct (list_pop_inv _ Hstack) as (l' & s & Hl).
  unfold pop. rewrite Hl, list_pop_snoc.
  assert (Hin : conf s ∈ set f).
  { apply Hset. rewrite Hl, fmap_app. set_solver. }
  unfold set_remove. rewrite decide_True by done.
  eexists _, _. split; [reflexivity|]. simpl.
  rewrite Hl, fmap_app in Hnd. apply NoDup_app in Hnd as (Hnd & Hdisj & _).
  assert (Hrest : ∀ c, c ∈ set f ∖ {[conf s]} ↔ c ∈ conf <$> l').
  { intros c. rewrite elem_of_difference, elem_of_singleton, Hset, Hl,
      fmap_app, elem_of_app. simpl. rewrite list_elem_of_singleton.
    split; [intros [[Hc | Hc] Hneq]; [done | contradiction]|].
    intros Hc. split; [by left|]. intros ->. apply (Hdisj _ Hc).
    by apply list_elem_of_singleton. }
  split_and!; [done | done | set_solver | split; simpl; done].
Qed.

Lemma pop_empty f : is_empty f = true → pop f = (inl Py.IndexError, f).
Proof.
  intros Hnil%is_empty_true. unfold pop. by rewrite Hnil.
Qed.

Lemma pop_nonempty_no_index_error f :
  is_empty f = false → fst (pop f) ≠ inl Py.IndexError.
Proof.
  intros Hne.
  assert (Hstack : stack f ≠ []).
  { intros Hnil. apply is_empty_true in Hnil. congruence. }
  destruct (list_pop_inv _ Hstack) as (l' & s & Hl).
  unfold pop. rewrite Hl, list_pop_snoc. unfold set_remove.
  destruct (decide _); simpl; congruence.
Qed.

(** Allowed calls never raise and keep the class invariant. *)
Lemma do_call_allowed k f :
  consistent f → call_allowed k f = true →
  ∃ r, fst (do_call k f) = inr r ∧ consistent (snd (do_call k f)).
Proof.
  intros Hf Hc. destruct k as [|s|]; simpl in *.
  - eexists. split; [done|]. apply prepare_consistent.
  - eexists. split; [done|]. apply add_consistent; [done|].
    by apply negb_true_iff.
  - apply negb_true_iff in Hc.
    destruct (pop_consistent f Hf Hc) as (s & f' & Hp & _ & _ & _ & Hf').
    rewrite Hp. simpl. eauto.
Qed.

Lemma do_calls_allowed cs f :
  consistent f → calls_allowed cs f = true →
  ∃ f', do_calls cs f = (None, f') ∧ consistent f'.
Proof.
  revert f. induction cs as [|c cs IH]; intros f Hf Hcs; simpl in *.
  - eauto.
  - apply andb_true_iff in Hcs as [Hc Hcs].
    destruct (do_call_allowed c f Hf Hc) as (r & Hr & Hf').
    destruct (do_call c f) as [[e|r'] f1]; simpl in *; [done|].
    by apply IH.
Qed.

Lemma count_calls_cons (p : @call Config Action → bool) k cs :
  count_calls p (k :: cs)
  = ((if p k then 1 else 0) + count_calls p cs)%Z.
Proof.
  unfold count_calls. rewrite filter_cons.
  destruct (p k) eqn:Hp.
  - rewrite decide_True by done. simpl. lia.
  - rewrite decide_False by congruence. lia.
Qed.

(** Without a [prepare] in between, the size moves by one per call. *)
Lemma do_calls_size cs f :
  consistent f → forallb (λ c, negb (is_prepare c)) cs = true →
  calls_allowed cs f = true →
  ∃ f', do_calls cs f = (None, f')
        ∧ size f'
          = (size f + count_calls is_add cs - count_calls is_pop cs)%Z.
Proof.
  revert f. induction cs as [|c cs IH]; intros f Hf Hnp Hcs; simpl in *.
  - eexists. split; [done|]. unfold count_calls. simpl. lia.
  - apply andb_true_iff in Hnp as [Hc0 Hnp].
    apply andb_true_iff in Hcs as [Hc Hcs].
    rewrite !count_calls_cons.
    destruct c as [|s|]; simpl in *; [done| |].
    + apply negb_true_iff in Hc.
      destruct (IH _ (add_consistent f s Hf Hc) Hnp Hcs) as (f' & Hrun & Hsz).
      exists f'. split; [done|]. rewrite Hsz. unfold size, add. simpl.
      rewrite length_app. simpl. lia.
    + apply negb_true_iff in Hc.
      destruct (pop_consistent f Hf Hc) as (s & f1 & Hp & Hst & _ & _ & Hf1).
      rewrite Hp in *. simpl in *.
      destruct (IH _ Hf1 Hnp Hcs) as (f' & Hrun & Hsz).
      exists f'. split; [done|]. rewrite Hsz. unfold size. rewrite Hst.
      rewrite length_app. simpl. lia.
Qed.

Lemma lifo_two f a b :
  conf a ≠ conf b →
  ∃ f1 f2, pop (add (add f a) b) = (inr b, f1)
           ∧ pop f1 = (inr a, f2)
           ∧ stack f2 = stack f.
Proof.
  intros Hab. unfold pop at 1. simpl.
  rewrite list_pop_snoc. unfold set_remove.
  rewrite decide_True by set_solver.
  eexists _, _. split; [reflexivity|].
  unfold pop. simpl. rewrite list_pop_snoc. unfold set_remove.
  rewrite decide_True by set_solver. done.
Qed.

(** C6. The depth-first frontier is last in, first out: after [add(a)] and
    [add(b)] for two different states, whatever the instance held, the
    first [pop] returns [b] and the second returns [a], and the stack is as
    before.  And on a new instance, after any sequence of [add] and [pop]
    calls in which no state is added that the frontier contains and
    nothing is popped from an empty frontier, no call has raised, [size] is
    the number of adds minus the number of pops, and [is_empty] holds
    exactly when that difference is zero. *)
Theorem dfs_last_in_first_out :
  (∀ f a b, conf a ≠ conf b →
     ∃ f1 f2, pop (add (add f a) b) = (inr b, f1)
              ∧ pop f1 = (inr a, f2)
              ∧ stack f2 = stack f)
  ∧ (∀ cs, forallb (λ k, negb (is_prepare k)) cs = true →
       calls_allowed cs (init : FrontierDFS.t Config Action) = true →
       ∃ f', do_calls cs init = (None, f')
             ∧ size f' = (count_calls is_add cs - count_calls is_pop cs)%Z
             ∧ (is_empty f' = true
                ↔ (count_calls is_add cs - count_calls is_pop cs)%Z = 0%Z)).
Proof.
  split; [exact lifo_two|].
  intros cs Hnp Hok.
  destruct (do_calls_size cs init init_consistent Hnp Hok)
    as (f' & Hrun & Hsize).
  exists f'. change (size init) with 0%Z in Hsize.
  split_and!; [done|lia|]. rewrite is_empty_size. lia.
Qed.

(** C7. A [pop] on an empty frontier raises [IndexError] and leaves the
    instance as it was; it returns no state.  When [is_empty] is false,
    [IndexError] is not raised, and on an instance that satisfies the class
    invariant the [pop] returns a state. *)
Theorem pop_empty_raises f :
  (is_empty f = true → pop f = (inl Py.IndexError, f))
  ∧ (is_empty f = false → fst (pop f) ≠ inl Py.IndexError)
  ∧ (is_empty f = false → consistent f → ∃ s f', pop f = (inr s, f')).
Proof.
  split_and!.
  - apply pop_empty.
  - apply pop_nonempty_no_index_error.
  - intros Hne Hf.
    destruct (pop_consistent f Hf Hne) as (s & f' & Hp & _). eauto.
Qed.

(** C10. On a new instance, after any sequence of [prepare], [add] and
    [pop] calls in which no state is added that the frontier contains and
    nothing is popped from an empty frontier, no call has raised and the
    membership set holds exactly the configurations of the states on the
    stack; so [contains] answers true exactly for the states that are on
    the stack. *)
Theorem membership_set_matches_stack cs :
  calls_allowed cs (init : FrontierDFS.t Config Action) = true →
  ∃ f', do_calls cs init = (None, f')
        ∧ (∀ c : Config, c ∈ set f' ↔ c ∈ conf <$> stack f')
        ∧ (∀ s, contains f' s = true ↔ conf s ∈ conf <$> stack f').
Proof.
  intros Hok.
  destruct (do_calls_allowed cs init init_consistent Hok)
    as (f' & Hrun & _ & Hset).
  exists f'. split_and!; [done|done|].
  intros s. by rewrite contains_set.
Qed.

End FrontierFacts.

(** ** The search loop *)

Section SearchFacts.
Context {Config Action Goal : Type} `{Countable Config}.
Variable applicable : Config → list (list Action) → list (list Action).
Variable transition : Config → list Action → Config.
Variable goal_test : Goal → Config → bool.
Variable clock : nat → Q.
Variable action_set : list (list Action).
Variable goal : Goal.
Variable c0 : Config.

Abbreviation Frontier := (FrontierDFS.t Config Action).
Abbreviation Srch := (@search Config Action _ _).
Abbreviation inv := (core_inv applicable transition goal_test action_set goal c0).
Abbreviation pinv := (point_inv applicable transition goal_test action_set goal c0).
Abbreviation desc := (descends applicable transition action_set c0).
Abbreviation exec := (executes applicable transition action_set).
Abbreviation child_of := (result transition).
Abbreviation is_goal' := (is_goal goal_test goal).
Abbreviation step' := (step applicable transition goal_test clock action_set goal).
Abbreviation loop := (search_loop applicable transition goal_test clock).

Lemma executes_app c plan1 c1 plan2 c2 :
  exec c plan1 c1 → exec c1 plan2 c2 → exec c (plan1 ++ plan2) c2.
Proof.
  induction 1 as [|c a plan c' Ha _ IH]; simpl; [done|].
  intros Hrest. constructor; auto.
Qed.

(** Walking the parent links of a generated state gives a plan that leads
    from the root to it. *)
Lemma descends_executes s : desc s → exec c0 (extract_plan s) (conf s).
Proof.
  induction 1 as [s Hroot Hconf | p a _ IH Ha].
  - destruct s as [c par ja pc]. simpl in *. subst. constructor.
  - simpl. eapply executes_app; [exact IH|].
    constructor; [done | constructor].
Qed.

Lemma expand_child_cases leaf (ex : gset Config) (fr : Frontier) a :
  expand_child transition leaf ex fr a = fr
  ∨ (expand_child transition leaf ex fr a
     = FrontierDFS.add fr (child_of leaf a)
     ∧ (conf (child_of leaf a) ∉ ex)
     ∧ FrontierDFS.contains fr (child_of leaf a) = false).
Proof.
  unfold expand_child.
  destruct (bool_decide (conf (child_of leaf a) ∈ ex)) eqn:Hex; simpl;
    [by left|].
  destruct (FrontierDFS.contains fr (child_of leaf a)) eqn:Hfr; simpl;
    [by left|].
  right. split_and!; [done| |done]. by apply bool_decide_eq_false in Hex.
Qed.

Lemma inv_pop (st : Srch) :
  inv st → counted 0 st → FrontierDFS.is_empty (frontier st) = false →
  ∃ leaf fr,
    FrontierDFS.pop (frontier st) = (inr leaf, fr)
    ∧ pinv (AtGoalTest leaf
              {| frontier := fr; explored := explored st;
                 iterations := iterations st + 1;
                 outside := outside st |}).
Proof.
  intros (Hcons & Hdisj & Hdesc & Hgoal) Hcount Hne.
  destruct (pop_consistent _ Hcons Hne)
    as (leaf & fr & Hpop & Hstack & Hset & Hnot & Hcons').
  exists leaf, fr. split; [done|]. simpl.
  rewrite Hstack in Hdesc. apply Forall_app in Hdesc as [Hdesc Hleaf].
  apply Forall_inv in Hleaf.
  assert (Hin : conf leaf ∈ FrontierDFS.set (frontier st)).
  { destruct Hcons as [_ Hs]. apply Hs. rewrite Hstack, fmap_app.
    set_solver. }
  assert (Hc1 : counted 1
                  {| frontier := fr; explored := explored st;
                     iterations := iterations st + 1;
                     outside := outside st |}).
  { unfold counted in *. simpl. lia. }
  split_and!; [|exact Hc1|exact Hleaf|exact Hnot|set_solver].
  split_and!; simpl; [done|set_solver|done|done].
Qed.

Lemma inv_explore leaf (st : Srch) :
  pinv (AtGoalTest leaf st) → is_goal' leaf = false →
  pinv (AtFor leaf (get_applicable_actions applicable leaf action_set)
          {| frontier := frontier st;
             explored := {[conf leaf]} ∪ explored st;
             iterations := iterations st; outside := outside st |}).
Proof.
  intros ((Hcons & Hdisj & Hdesc & Hgoal) & Hcount & Hleaf & Hnf & Hne)
    Hng.
  simpl. split_and!; try done.
  - split_and!; simpl; try done; [set_solver|].
    intros c [->%elem_of_singleton | Hc]%elem_of_union; auto.
  - unfold counted in *. simpl.
    rewrite size_union by set_solver. rewrite size_singleton. lia.
Qed.

Lemma inv_child leaf a todo (st : Srch) :
  pinv (AtFor leaf (a :: todo) st) →
  pinv (AtFor leaf todo
          {| frontier :=
               expand_child transition leaf (explored st) (frontier st) a;
             explored := explored st;
             iterations := iterations st; outside := outside st |}).
Proof.
  intros ((Hcons & Hdisj & Hdesc & Hgoal) & Hcount & Hleaf & Htodo).
  simpl. split_and!; try done; [|intros a' Ha'; apply Htodo; set_solver].
  destruct (expand_child_cases leaf (explored st) (frontier st) a)
    as [-> | (-> & Hex & Hfr)]; [by split_and!|].
  split_and!; simpl; try done.
  - by apply add_consistent.
  - set_solver.
  - apply Forall_app. split; [done|]. apply Forall_singleton.
    constructor; [done|]. apply Htodo. set_solver.
Qed.

Lemma inv_for leaf todo (st : Srch) :
  pinv (AtFor leaf todo st) →
  pinv (AtWhile
          {| frontier :=
               fold_left (expand_child transition leaf (explored st)) todo
                 (frontier st);
             explored := explored st;
             iterations := iterations st; outside := outside st |}).
Proof.
  revert st. induction todo as [|a todo IH]; intros st Hst.
  - destruct st. simpl in *. tauto.
  - apply inv_child in Hst. apply IH in Hst. exact Hst.
Qed.

Lemma return_exhausted_search (st : Srch) :
  ∃ o w, return_exhausted clock st
         = (o, {| frontier := frontier st; explored := explored st;
                  iterations := iterations st; outside := w |}).
Proof. unfold return_exhausted. simpl. eauto. Qed.

Lemma return_goal_search leaf (st : Srch) :
  ∃ o w, return_goal goal_test clock goal leaf st
         = (o, {| frontier := frontier st; explored := explored st;
                  iterations := iterations st; outside := w |}).
Proof.
  unfold return_goal.
  destruct (print_search_status _ _ _ _) as [[g e] w].
  destruct (Py.float g); [destruct (Py.float _)|]; eauto.
Qed.

(** Every statement of the loop keeps the invariant of its place. *)
Lemma step_inv p q : pinv p → step' p = Some q → pinv q.
Proof.
  intros Hp Hstep. destruct p as [st | leaf st | leaf todo st | o st];
    cbn [step] in Hstep.
  - destruct Hp as [Hinv Hcount].
    destruct (FrontierDFS.is_empty (frontier st)) eqn:Hemp.
    + destruct (return_exhausted_search st) as (o & w & Heq).
      rewrite Heq in Hstep. injection Hstep as <-. simpl. exact Hinv.
    + destruct (inv_pop st Hinv Hcount Hemp) as (leaf & fr & Hpop & Hq).
      rewrite Hpop in Hstep. by injection Hstep as <-.
  - destruct (is_goal' leaf) eqn:Hg.
    + destruct (return_goal_search leaf st) as (o & w & Heq).
      rewrite Heq in Hstep. injection Hstep as <-. simpl.
      destruct Hp as (Hinv & _). exact Hinv.
    + injection Hstep as <-. by apply inv_explore.
  - destruct todo as [|a todo]; injection Hstep as <-.
    + simpl in *. tauto.
    + by apply inv_child.
  - done.
Qed.

Lemma enter_inv initial_state (fr : Frontier) w :
  conf initial_state = c0 →
  pinv (AtWhile (enter clock initial_state goal fr w)).
Proof.
  intros Hc0. unfold enter. simpl. split; [|done].
  - split_and!; simpl.
    + apply add_consistent; [apply init_consistent|].
      apply bool_decide_eq_false. set_solver.
    + set_solver.
    + apply Forall_singleton. by constructor.
    + set_solver.
Qed.

Lemma visits_inv initial_state (fr : Frontier) w p :
  conf initial_state = c0 →
  visits applicable transition goal_test clock initial_state action_set
    goal fr w p →
  pinv p.
Proof.
  intros Hc0 Hvisit. unfold visits in Hvisit.
  apply (rtc_ind_r (λ p, pinv p) _ (enter_inv initial_state fr w Hc0))
    in Hvisit; [done|].
  intros q r _ Hstep Hq. by apply (step_inv q r).
Qed.

(** How the loop can end: out of fuel, at line 84 with an empty frontier,
    or at line 102 with a popped state that passes the goal test.  The
    world is as on entry of the loop until the result is put together. *)
Lemma search_loop_spec fuel (st : Srch) o st' :
  inv st → counted 0 st → loop fuel action_set goal st = (o, st') →
  o = Py.OutOfFuel
  ∨ (∃ stE, inv stE ∧ counted 0 stE
            ∧ FrontierDFS.is_empty (frontier stE) = true
            ∧ outside stE = outside st
            ∧ return_exhausted clock stE = (o, st'))
  ∨ (∃ leaf stG, pinv (AtGoalTest leaf stG)
                 ∧ is_goal' leaf = true
                 ∧ outside stG = outside st
                 ∧ return_goal goal_test clock goal leaf stG = (o, st')).
Proof.
  revert st. induction fuel as [|fuel IH]; intros st Hinv Hcount Hrun;
    cbn [search_loop] in Hrun.
  - left. congruence.
  - destruct (FrontierDFS.is_empty (frontier st)) eqn:Hemp.
    + right; left. by exists st.
    + destruct (inv_pop st Hinv Hcount Hemp) as (leaf & fr & Hpop & Hq).
      rewrite Hpop in Hrun.
      destruct (is_goal goal_test goal leaf) eqn:Hg.
      * right; right. eexists leaf, _. by split_and!.
      * apply inv_explore in Hq; [|done]. apply inv_for in Hq.
        destruct Hq as [Hi Hc]. by apply IH in Hrun.
Qed.

(** What line 84 returns. *)
Lemma return_exhausted_spec (st : Srch) :
  return_exhausted clock st
  = (Py.Returns (false, [], Py.PyInt (iterations st),
                 (clock (reads (outside st))
                  - start_time (outside st))%Q),
     {| frontier := frontier st; explored := explored st;
        iterations := iterations st;
        outside := snd (time_time clock (outside st)) |}).
Proof. reflexivity. Qed.

(** What lines 98 to 102 return: the count is the length of the plan plus
    the size of the frontier, sent through the status texts; with an empty
    plan the start time is taken anew before the elapsed time is
    measured. *)
Lemma return_goal_spec leaf (st : Srch) :
  let w := outside st in
  let plan := extract_plan leaf in
  let w1 := if (length plan =? 0)%nat
            then set_start_time (clock (reads w)) (snd (time_time clock w))
            else w in
  return_goal goal_test clock goal leaf st
  = (match Py.reported_count
             (Z.of_nat (length plan) + FrontierDFS.size (frontier st)) with
     | None => Py.Raises Py.ValueError
     | Some q =>
         Py.Returns
           (is_goal' leaf, plan, Py.PyFloat q,
            Py.round3 (clock (reads w1) - start_time w1)%Q)
     end,
     {| frontier := frontier st; explored := explored st;
        iterations := iterations st;
        outside := snd (time_time clock w1) |}).
Proof.
  intros w plan w1. unfold return_goal, print_search_status.
  fold plan. fold w.
  change (if (length plan =? 0)%nat
          then let '(now, w') := time_time clock w in set_start_time now w'
          else w) with w1.
  cbn [time_time]. rewrite float_elapsed.
  unfold Py.reported_count.
  by destruct (Py.float _).
Qed.

End SearchFacts.

(** ** The result of a search *)

Section SearchResults.
Context {Config Action Goal : Type} `{Countable Config}.
Variable applicable : Config → list (list Action) → list (list Action).
Variable transition : Config → list Action → Config.
Variable goal_test : Goal → Config → bool.
Variable clock : nat → Q.

Abbreviation search_from := (graph_search applicable transition goal_test clock).
Implicit Types (initial_state : HospitalState Config Action).
Implicit Types (action_set plan : list (list Action)) (goal : Goal).
Implicit Types (fr : FrontierDFS.t Config Action) (w : world).

(** The three ways a call can end, with the invariants of the place. *)
Lemma graph_search_cases fuel initial_state action_set goal fr w :
  let r := search_from fuel initial_state action_set goal fr w in
  let w0 := outside (enter clock initial_state goal fr w) in
  fst r = Py.OutOfFuel
  ∨ (∃ stE,
        core_inv applicable transition goal_test action_set goal
          (conf initial_state) stE
        ∧ counted 0 stE
        ∧ FrontierDFS.is_empty (frontier stE) = true
        ∧ outside stE = w0
        ∧ return_exhausted clock stE = r)
  ∨ (∃ leaf stG,
        point_inv applicable transition goal_test action_set goal
          (conf initial_state) (AtGoalTest leaf stG)
        ∧ is_goal goal_test goal leaf = true
        ∧ outside stG = w0
        ∧ return_goal goal_test clock goal leaf stG = r).
Proof.
  intros r w0. subst r. unfold graph_search.
  destruct (search_loop _ _ _ _ _ _ _ _) as [o st'] eqn:Hrun.
  destruct (enter_inv applicable transition goal_test clock action_set goal
              (conf initial_state) initial_state fr w eq_refl)
    as [Hinv Hcount].
  apply (search_loop_spec applicable transition goal_test clock action_set
           goal (conf initial_state) _ _ _ _ Hinv Hcount) in Hrun.
  exact Hrun.
Qed.

Lemma enter_world initial_state goal fr w :
  outside (enter clock initial_state goal fr w)
  = {| reads := S (reads w); start_time := clock (reads w);
       log := log w ++ [EvClock (clock (reads w)); EvPrepare] |}.
Proof.
  unfold enter, record_event, set_start_time. simpl. f_equal. by rewrite <- app_assoc.
Qed.

Lemma round3_nonneg x : (0 <= x)%Q → (0 <= Py.round3 x)%Q.
Proof.
  intros Hx. pose proof (round_half_even_sign x) as Hsign. simpl in Hsign.
  assert (Hneg : Py.Qneg x = false).
  { unfold Py.Qneg. apply Z.ltb_ge. unfold Qle in Hx. simpl in Hx. lia. }
  rewrite Hneg in Hsign. unfold Py.round3, Qle. simpl. lia.
Qed.

(** C1. Whenever [graph_search] returns with success, the returned plan
    can be carried out from the initial state: every joint action in it is
    applicable in the configuration reached so far, its transition gives
    the next configuration, and the configuration reached at the end
    passes the goal test.  (The plan is the one that [extract_plan] reads
    off the parent links that [result] sets.) *)
Theorem graph_search_plan_valid fuel initial_state action_set goal fr w
  plan n t :
  fst (search_from fuel initial_state action_set goal fr w)
  = Py.Returns (true, plan, n, t) →
  ∃ c, executes applicable transition action_set (conf initial_state)
         plan c
       ∧ goal_test goal c = true.
Proof.
  intros Hret.
  destruct (graph_search_cases fuel initial_state action_set goal fr w)
    as [Hout | [(stE & _ & _ & _ & _ & HE) | (leaf & stG & Hp & Hg & _ & HG)]].
  - congruence.
  - rewrite <- HE, return_exhausted_spec in Hret. simpl in Hret.
    congruence.
  - rewrite <- HG, return_goal_spec in Hret. simpl in Hret.
    destruct (Py.reported_count _); [|congruence].
    injection Hret as _ <- _ _.
    destruct Hp as (_ & _ & Hleaf & _).
    exists (conf leaf). split; [|exact Hg].
    by apply descends_executes.
Qed.

(** C2. What the code returns as the generated count when the goal is
    found: the length of the plan plus the size of the frontier, as
    [print_search_status] formats it and [float] reads it back.  The number
    of popped states, which the loop counts in [iterations], does not enter
    the result. *)
Theorem generated_count_goal_found fuel initial_state action_set goal fr w
  plan n t :
  fst (search_from fuel initial_state action_set goal fr w)
  = Py.Returns (true, plan, n, t) →
  ∃ q, n = Py.PyFloat q
       ∧ Py.reported_count
           (Z.of_nat (length plan)
            + FrontierDFS.size
                (frontier
                   (snd (search_from fuel initial_state action_set goal
                           fr w))))
         = Some q
       ∧ iterations
           (snd (search_from fuel initial_state action_set goal fr w))
         = (Z.of_nat
              (size (explored
                       (snd (search_from fuel initial_state action_set
                               goal fr w)))) + 1)%Z.
Proof.
  intros Hret.
  destruct (graph_search_cases fuel initial_state action_set goal fr w)
    as [Hout | [(stE & _ & _ & _ & _ & HE) | (leaf & stG & Hp & Hg & _ & HG)]].
  - congruence.
  - rewrite <- HE, return_exhausted_spec in Hret. simpl in Hret.
    congruence.
  - rewrite <- HG in *. rewrite return_goal_spec in *. simpl in *.
    destruct (Py.reported_count _) as [q|] eqn:Hq; [|congruence].
    injection Hret as _ <- <- _.
    exists q. split_and!; [done|exact Hq|].
    by destruct Hp as (_ & Hcount & _).
Qed.

(** C3. What the code returns when the initial state passes the goal test:
    success, the empty plan, and a generated count of zero, the length of
    the empty plan plus the size of the emptied frontier, although one
    state has been popped; the elapsed time is not negative when the clock
    does not run backwards. *)
Theorem graph_search_goal_at_start fuel initial_state action_set goal fr w :
  goal_test goal (conf initial_state) = true →
  (∀ i j, i ≤ j → (clock i <= clock j)%Q) →
  ∃ t, fst (search_from (S fuel) initial_state action_set goal fr w)
       = Py.Returns (true, [], Py.PyFloat 0, t)
       ∧ (0 <= t)%Q
       ∧ iterations
           (snd (search_from (S fuel) initial_state action_set goal fr w))
         = 1%Z
       ∧ FrontierDFS.size
           (frontier
              (snd (search_from (S fuel) initial_state action_set goal
                      fr w)))
         = 0%Z.
Proof.
  intros Hgoal Hmono.
  unfold graph_search. cbn [search_loop].
  assert (Hpop : FrontierDFS.pop
                   (frontier (enter clock initial_state goal fr w))
                 = (inr (make_root initial_state), FrontierDFS.init)).
  { unfold enter, FrontierDFS.pop. simpl. unfold FrontierDFS.set_remove.
    rewrite decide_True by set_solver. do 2 f_equal.
    unfold FrontierDFS.init. f_equal. set_solver. }
  replace (FrontierDFS.is_empty
             (frontier (enter clock initial_state goal fr w)))
    with false by reflexivity.
  rewrite Hpop.
  replace (is_goal goal_test goal (make_root initial_state)) with true
    by (symmetry; exact Hgoal).
  rewrite return_goal_spec. cbn [fst snd iterations frontier].
  change (extract_plan (make_root initial_state)) with (@nil (list Action)).
  change (FrontierDFS.size FrontierDFS.init) with 0%Z.
  change (Py.reported_count (Z.of_nat (length (@nil (list Action))) + 0))
    with (Some (0 # 1)%Q).
  replace (is_goal goal_test goal (make_root initial_state)) with true
    by (symmetry; exact Hgoal).
  eexists. split_and!; [reflexivity| |reflexivity|reflexivity].
  apply round3_nonneg. simpl.
  apply (Qle_minus_iff (clock (S (reads w)))). apply Hmono. lia.
Qed.

(** C4. Whenever [graph_search] returns without success, the plan is empty,
    the count is the number of explored states plus the size of the
    frontier, the frontier is empty, no explored state passes the goal
    test, and the elapsed time is the difference of the two readings of the
    clock. *)
Theorem graph_search_exhausted fuel initial_state action_set goal fr w
  plan n t :
  fst (search_from fuel initial_state action_set goal fr w)
  = Py.Returns (false, plan, n, t) →
  plan = []
  ∧ n = Py.PyInt
          (Z.of_nat
             (size (explored
                      (snd (search_from fuel initial_state action_set goal
                              fr w))))
           + FrontierDFS.size
               (frontier
                  (snd (search_from fuel initial_state action_set goal
                          fr w))))
  ∧ FrontierDFS.is_empty
      (frontier (snd (search_from fuel initial_state action_set goal fr w)))
    = true
  ∧ (∀ c, c ∈ explored
            (snd (search_from fuel initial_state action_set goal fr w)) →
          goal_test goal c = false)
  ∧ t = (clock (S (reads w)) - clock (reads w))%Q.
Proof.
  intros Hret.
  destruct (graph_search_cases fuel initial_state action_set goal fr w)
    as [Hout | [(stE & Hinv & Hcount & Hemp & Hw & HE)
               | (leaf & stG & Hp & Hg & _ & HG)]].
  - congruence.
  - cbv zeta in Hw. rewrite enter_world in Hw.
    rewrite <- HE in *. rewrite return_exhausted_spec in *.
    cbn [fst snd frontier explored] in *.
    injection Hret as <- <- <-.
    destruct Hinv as (_ & _ & _ & Hgoal).
    split_and!; [done| |done|done|by rewrite Hw].
    f_equal. apply is_empty_size in Hemp. rewrite Hemp.
    unfold counted in Hcount. lia.
  - rewrite <- HG, return_goal_spec in Hret. simpl in Hret.
    destruct (Py.reported_count _); [|congruence].
    injection Hret as Hfalse _ _ _. congruence.
Qed.

(** The loop as a function and the loop statement by statement agree: a
    call that ends has passed through the points that lead to its end. *)
Lemma for_steps action_set goal leaf todo (st : @search Config Action _ _) :
  rtc (steps_to applicable transition goal_test clock action_set goal)
    (AtFor leaf todo st)
    (AtWhile
       {| frontier :=
            fold_left (expand_child transition leaf (explored st)) todo
              (frontier st);
          explored := explored st;
          iterations := iterations st; outside := outside st |}).
Proof.
  revert st. induction todo as [|a todo IH]; intros st.
  - apply rtc_once. by destruct st.
  - eapply rtc_l; [reflexivity|]. apply (IH (Search _ _ _ _)).
Qed.

Lemma search_loop_steps fuel action_set goal
  (st : @search Config Action _ _) o st' :
  search_loop applicable transition goal_test clock fuel action_set goal st
  = (o, st') →
  o ≠ Py.OutOfFuel →
  rtc (steps_to applicable transition goal_test clock action_set goal)
    (AtWhile st) (Finished o st').
Proof.
  revert st. induction fuel as [|fuel IH]; intros st Hrun Hfuel;
    cbn [search_loop] in Hrun; [congruence|].
  destruct (FrontierDFS.is_empty (frontier st)) eqn:Hemp.
  { apply rtc_once. unfold steps_to. cbn [step]. by rewrite Hemp, Hrun. }
  destruct (FrontierDFS.pop (frontier st)) as [[e|leaf] fr1] eqn:Hpop.
  { injection Hrun as <- <-. apply rtc_once. unfold steps_to. cbn [step].
    by rewrite Hemp, Hpop. }
  eapply rtc_l.
  { unfold steps_to. cbn [step]. rewrite Hemp, Hpop. reflexivity. }
  destruct (is_goal goal_test goal leaf) eqn:Hg.
  { apply rtc_once. unfold steps_to. cbn [step]. by rewrite Hg, Hrun. }
  eapply rtc_l.
  { unfold steps_to. cbn [step]. rewrite Hg. reflexivity. }
  etrans; [apply for_steps|]. by apply IH.
Qed.

Lemma graph_search_visits fuel initial_state action_set goal fr w :
  fst (search_from fuel initial_state action_set goal fr w)
  ≠ Py.OutOfFuel →
  visits applicable transition goal_test clock initial_state action_set
    goal fr w
    (uncurry Finished
       (search_from fuel initial_state action_set goal fr w)).
Proof.
  unfold graph_search, visits.
  destruct (search_loop _ _ _ _ _ _ _ _) as [o st'] eqn:Hrun.
  intros Hfuel. by apply (search_loop_steps fuel).
Qed.

Lemma advance_steps n action_set goal (p : @point Config Action _ _) :
  rtc (steps_to applicable transition goal_test clock action_set goal) p
    (advance applicable transition goal_test clock n action_set goal p).
Proof.
  revert p. induction n as [|n IH]; intros p; cbn [advance]; [done|].
  destruct (step _ _ _ _ _ _ p) as [q|] eqn:Hstep; [|done].
  eapply rtc_l; [exact Hstep | apply IH].
Qed.

(** C5. At every point that a call of [graph_search] passes through, no
    configuration is both in the explored set and in the frontier, be it
    its membership set or its stack.  The state just popped, which is about
    to be tested and then added to the explored set, is no longer in the
    frontier; and when the body of the [for] loop changes the frontier, it
    adds a child that is neither explored nor in the frontier. *)
Theorem frontier_explored_disjoint initial_state action_set goal fr w p :
  visits applicable transition goal_test clock initial_state action_set
    goal fr w p →
  (∀ c, c ∈ explored (search_of p) →
        (c ∉ FrontierDFS.set (frontier (search_of p)))
        ∧ (c ∉ conf <$> FrontierDFS.stack (frontier (search_of p))))
  ∧ match p with
    | AtGoalTest leaf st =>
        (conf leaf ∉ FrontierDFS.set (frontier st))
        ∧ (conf leaf ∉ conf <$> FrontierDFS.stack (frontier st))
        ∧ (conf leaf ∉ explored st)
    | AtFor leaf (action :: _) st =>
        let child := result transition leaf action in
        let fr' := expand_child transition leaf (explored st) (frontier st)
                     action in
        fr' = frontier st
        ∨ (fr' = FrontierDFS.add (frontier st) child
           ∧ (conf child ∉ explored st)
           ∧ (conf child ∉ FrontierDFS.set (frontier st))
           ∧ (conf child ∉ conf <$> FrontierDFS.stack (frontier st)))
    | _ => True
    end.
Proof.
  intros Hvisit.
  apply (visits_inv applicable transition goal_test clock action_set goal
           (conf initial_state)) in Hvisit; [|done].
  assert (Hcore : core_inv applicable transition goal_test action_set goal
                    (conf initial_state) (search_of p)).
  { destruct p; simpl in *; tauto. }
  destruct Hcore as ([_ Hset] & Hdisj & _ & _).
  split.
  - intros c Hc. split; [set_solver|]. rewrite <- Hset. set_solver.
  - destruct p as [st | leaf st | leaf [|a todo] st | o st]; try done.
    + destruct Hvisit as (_ & _ & _ & Hnf & Hne). simpl in Hset.
      split_and!; [done| |done]. by rewrite <- Hset.
    + simpl in *.
      destruct (expand_child_cases transition leaf (explored st)
                  (frontier st) a) as [Heq | (Heq & Hex & Hfr)];
        [by left|right].
      assert (Hnot : conf (result transition leaf a)
                     ∉ FrontierDFS.set (frontier st)).
      { intros Hin%contains_set. congruence. }
      split_and!; [done|done|done|]. by rewrite <- Hset.
Qed.

(** The world has no influence on the course of the loop, only on the
    elapsed time that is reported at the end. *)
Lemma search_loop_world fuel action_set goal fr (ex : gset Config) it w w' :
  let r := search_loop applicable transition goal_test clock fuel
             action_set goal (Search fr ex it w) in
  let r' := search_loop applicable transition goal_test clock fuel
              action_set goal (Search fr ex it w') in
  same_but_time (fst r) (fst r')
  ∧ frontier (snd r) = frontier (snd r')
  ∧ explored (snd r) = explored (snd r')
  ∧ iterations (snd r) = iterations (snd r').
Proof.
  revert fr ex it. induction fuel as [|fuel IH]; intros fr ex it;
    cbn [search_loop frontier explored iterations outside]; [done|].
  destruct (FrontierDFS.is_empty fr); [by rewrite !return_exhausted_spec|].
  destruct (FrontierDFS.pop fr) as [[e|leaf] fr1]; [done|].
  destruct (is_goal goal_test goal leaf) eqn:Hg; [|apply IH].
  rewrite !return_goal_spec. cbn [fst snd frontier explored iterations].
  by destruct (Py.reported_count _).
Qed.

(** C8. Whatever the instance held before, after [prepare] it is empty:
    size zero, [is_empty] true, [contains] false for every state.  Hence a
    search on a used instance ends exactly as the same search on a new
    instance does, and even when the two searches start in different
    worlds, at different times, they differ in nothing but the elapsed
    time. *)
Theorem prepare_resets fuel initial_state action_set goal fr w w' :
  FrontierDFS.size (FrontierDFS.prepare fr goal) = 0%Z
  ∧ FrontierDFS.is_empty (FrontierDFS.prepare fr goal) = true
  ∧ (∀ s, FrontierDFS.contains (FrontierDFS.prepare fr goal) s = false)
  ∧ search_from fuel initial_state action_set goal fr w
    = search_from fuel initial_state action_set goal FrontierDFS.init w
  ∧ same_but_time
      (fst (search_from fuel initial_state action_set goal fr w))
      (fst (search_from fuel initial_state action_set goal
              FrontierDFS.init w'))
  ∧ frontier (snd (search_from fuel initial_state action_set goal fr w))
    = frontier (snd (search_from fuel initial_state action_set goal
                       FrontierDFS.init w')).
Proof.
  split_and!; try done; unfold graph_search, enter; cbn [time_time];
    apply (search_loop_world fuel action_set goal).
Qed.

(** C9, as the code has it.  The clock is read on entry, before the
    frontier is reset, and that reading is the start time.  When the call
    ends without success, or with success and a plan that is not empty, the
    clock has been read once more, when the result is put together, and the
    elapsed time is the difference of the two readings, rounded to
    thousandths in the case of success. *)
Theorem elapsed_measured_from_entry fuel initial_state action_set goal fr w
  ok plan n t :
  fst (search_from fuel initial_state action_set goal fr w)
  = Py.Returns (ok, plan, n, t) →
  ok = false ∨ plan ≠ [] →
  log (outside (snd (search_from fuel initial_state action_set goal fr w)))
  = log w ++ [EvClock (clock (reads w)); EvPrepare;
              EvClock (clock (S (reads w)))]
  ∧ t = (if ok
         then Py.round3 (clock (S (reads w)) - clock (reads w))
         else clock (S (reads w)) - clock (reads w))%Q.
Proof.
  intros Hret Hcase.
  destruct (graph_search_cases fuel initial_state action_set goal fr w)
    as [Hout | [(stE & _ & _ & _ & Hw & HE)
               | (leaf & stG & _ & Hg & Hw & HG)]];
    [congruence|..]; cbv zeta in Hw; rewrite enter_world in Hw.
  - rewrite <- HE in *. rewrite return_exhausted_spec in *.
    cbn [fst snd outside] in *. injection Hret as <- <- <- <-.
    rewrite Hw. cbn [time_time snd log reads start_time].
    split; [|done]. rewrite <- app_assoc. done.
  - rewrite <- HG in *. rewrite return_goal_spec in *.
    cbn [fst snd outside] in *.
    destruct (Py.reported_count _); [|congruence].
    injection Hret as <- <- <- <-.
    destruct Hcase as [Hfalse | Hplan]; [congruence|].
    destruct (extract_plan leaf) as [|a plan] eqn:Hplan'; [done|].
    cbn [length Nat.eqb]. rewrite Hw, Hg.
    cbn [time_time snd log reads start_time].
    split; [|done]. rewrite <- app_assoc. done.
Qed.

End SearchResults.

(** ** The corridor: the properties at work *)

Section CorridorRuns.
Import Corridor.

Abbreviation to_cell_3 := (Corridor.run 10 Corridor.start 3).
Abbreviation to_cell_7 := (Corridor.run 10 Corridor.start 7).
Abbreviation at_goal := (Corridor.run 1 Corridor.start 0).

(** The search for cell 3 pops 0, 2, 4 and 3 and leaves cell 1 in the
    frontier: four states expanded, one in the frontier, five generated;
    the count in the result is 3, the two steps of the plan and the one
    state of the frontier. *)
Example corridor_to_cell_3 :
  fst to_cell_3
  = Py.Returns (true, [[2]; [1]], Py.PyFloat (3 # 1), (250 # 1000)%Q)
  ∧ iterations (snd to_cell_3) = 4%Z
  ∧ FrontierDFS.size (frontier (snd to_cell_3)) = 1%Z
  ∧ log (outside (snd to_cell_3))
    = [EvClock (0 # 4); EvPrepare; EvClock (1 # 4)].
Proof. vm_compute. done. Qed.

(** No cell 7: all five cells get explored. *)
Example corridor_to_cell_7 :
  fst to_cell_7 = Py.Returns (false, [], Py.PyInt 5, ((1 # 4) - (0 # 4))%Q)
  ∧ size (explored (snd to_cell_7)) = 5
  ∧ forallb (λ c, bool_decide (c ∈ explored (snd to_cell_7)))
      [0; 1; 2; 3; 4] = true.
Proof. vm_compute. done. Qed.

(** The start on the goal cell: one state popped, a count of zero, and a
    start time taken anew when the result is put together. *)
Example corridor_at_goal :
  fst at_goal
  = Py.Returns (true, [], Py.PyFloat (0 # 1), (250 # 1000)%Q)
  ∧ iterations (snd at_goal) = 1%Z
  ∧ log (outside (snd at_goal))
    = [EvClock (0 # 4); EvPrepare; EvClock (1 # 4); EvClock (2 # 4)].
Proof. vm_compute. done. Qed.

(** Outside the contract: a state added twice is on the stack twice but in
    the set once, and the second [pop] raises [KeyError] although the
    frontier is not empty. *)
Example pop_after_duplicate_add :
  fst (FrontierDFS.do_calls duplicate_calls FrontierDFS.init)
  = Some Py.KeyError
  ∧ FrontierDFS.is_empty
      (snd (FrontierDFS.do_calls (take 3 duplicate_calls) FrontierDFS.init))
    = false.
Proof. vm_compute. done. Qed.

Lemma graph_search_plan_valid_witness :
  fst to_cell_3
  = Py.Returns (true, [[2]; [1]], Py.PyFloat (3 # 1), (250 # 1000)%Q)
  ∧ ∃ c, executes applicable transition action_set 0 [[2]; [1]] c
         ∧ goal_test 3 c = true.
Proof.
  assert (Hrun : fst to_cell_3
                 = Py.Returns (true, [[2]; [1]], Py.PyFloat (3 # 1),
                               (250 # 1000)%Q))
    by (vm_compute; reflexivity).
  split; [exact Hrun|].
  exact (graph_search_plan_valid applicable transition goal_test clock
           10 start action_set 3 FrontierDFS.init fresh_world
           _ _ _ Hrun).
Defined.

Lemma generated_count_goal_found_witness :
  fst to_cell_3
  = Py.Returns (true, [[2]; [1]], Py.PyFloat (3 # 1), (250 # 1000)%Q)
  ∧ ∃ q, Py.PyFloat (3 # 1) = Py.PyFloat q
         ∧ Py.reported_count
             (Z.of_nat (length [[2]; [1]])
              + FrontierDFS.size (frontier (snd to_cell_3)))
           = Some q
         ∧ iterations (snd to_cell_3)
           = (Z.of_nat (size (explored (snd to_cell_3))) + 1)%Z.
Proof.
  assert (Hrun : fst to_cell_3
                 = Py.Returns (true, [[2]; [1]], Py.PyFloat (3 # 1),
                               (250 # 1000)%Q))
    by (vm_compute; reflexivity).
  split; [exact Hrun|].
  exact (generated_count_goal_found applicable transition goal_test clock
           10 start action_set 3 FrontierDFS.init fresh_world
           _ _ _ Hrun).
Defined.

Lemma clock_monotone i j : i ≤ j → (clock i <= clock j)%Q.
Proof. intros Hij. unfold clock, Qle. simpl. lia. Qed.

Lemma graph_search_goal_at_start_witness :
  goal_test 0 (conf start) = true
  ∧ (∀ i j, i ≤ j → (clock i <= clock j)%Q)
  ∧ ∃ t, fst at_goal = Py.Returns (true, [], Py.PyFloat 0, t)
         ∧ (0 <= t)%Q
         ∧ iterations (snd at_goal) = 1%Z
         ∧ FrontierDFS.size (frontier (snd at_goal)) = 0%Z.
Proof.
  split; [reflexivity|]. split; [exact clock_monotone|].
  exact (graph_search_goal_at_start applicable transition goal_test clock
           0 start action_set 0 FrontierDFS.init fresh_world
           eq_refl clock_monotone).
Defined.

Lemma graph_search_exhausted_witness :
  fst to_cell_7 = Py.Returns (false, [], Py.PyInt 5, ((1 # 4) - (0 # 4))%Q)
  ∧ Py.PyInt 5
    = Py.PyInt (Z.of_nat (size (explored (snd to_cell_7)))
                + FrontierDFS.size (frontier (snd to_cell_7)))
  ∧ FrontierDFS.is_empty (frontier (snd to_cell_7)) = true.
Proof.
  assert (Hrun : fst to_cell_7
                 = Py.Returns (false, [], Py.PyInt 5,
                               ((1 # 4) - (0 # 4))%Q))
    by (vm_compute; reflexivity).
  split; [exact Hrun|].
  destruct (graph_search_exhausted applicable transition goal_test clock
              10 start action_set 7 FrontierDFS.init fresh_world
              _ _ _ Hrun) as (_ & Hn & Hemp & _).
  split; [exact Hn | exact Hemp].
Defined.

Lemma frontier_explored_disjoint_witness :
  visits applicable transition goal_test clock start action_set 3
    FrontierDFS.init fresh_world in_for_loop
  ∧ ∀ c, c ∈ explored (search_of in_for_loop) →
         (c ∉ FrontierDFS.set (frontier (search_of in_for_loop)))
         ∧ (c ∉ conf <$> FrontierDFS.stack
                           (frontier (search_of in_for_loop))).
Proof.
  assert (Hvisit : visits applicable transition goal_test clock start
                     action_set 3 FrontierDFS.init fresh_world in_for_loop)
    by apply advance_steps.
  split; [exact Hvisit|].
  exact (proj1 (frontier_explored_disjoint applicable transition goal_test
                  clock start action_set 3 FrontierDFS.init fresh_world
                  in_for_loop Hvisit)).
Defined.

Lemma dfs_last_in_first_out_witness :
  (conf start ≠ conf next
   ∧ ∃ f1 f2,
       FrontierDFS.pop
         (FrontierDFS.add (FrontierDFS.add FrontierDFS.init start) next)
       = (inr next, f1)
       ∧ FrontierDFS.pop f1 = (inr start, f2)
       ∧ FrontierDFS.stack f2 = [])
  ∧ (FrontierDFS.calls_allowed stack_calls FrontierDFS.init = true
     ∧ ∃ f', FrontierDFS.do_calls stack_calls FrontierDFS.init = (None, f')
             ∧ FrontierDFS.size f' = 1%Z).
Proof.
  destruct (@dfs_last_in_first_out nat nat _ _) as [Hlifo Hcount].
  split.
  - assert (Hne : conf start ≠ conf next) by (simpl; lia).
    split; [exact Hne|].
    exact (Hlifo FrontierDFS.init start next Hne).
  - assert (Hok : FrontierDFS.calls_allowed stack_calls FrontierDFS.init
                  = true) by (vm_compute; reflexivity).
    split; [exact Hok|].
    destruct (Hcount stack_calls eq_refl Hok) as (f' & Hrun & Hsize & _).
    exists f'. split; [exact Hrun | exact Hsize].
Defined.

Lemma pop_empty_raises_witness :
  (FrontierDFS.is_empty (FrontierDFS.init : FrontierDFS.t nat nat) = true
   ∧ FrontierDFS.pop (FrontierDFS.init : FrontierDFS.t nat nat)
     = (inl Py.IndexError, FrontierDFS.init))
  ∧ (FrontierDFS.is_empty (FrontierDFS.add FrontierDFS.init start) = false
     ∧ fst (FrontierDFS.pop (FrontierDFS.add FrontierDFS.init start))
       ≠ inl Py.IndexError).
Proof.
  split.
  - split; [reflexivity|].
    exact (proj1 (pop_empty_raises FrontierDFS.init) eq_refl).
  - split; [reflexivity|].
    exact (proj1 (proj2 (pop_empty_raises
                           (FrontierDFS.add FrontierDFS.init start)))
             eq_refl).
Defined.

Lemma membership_set_matches_stack_witness :
  FrontierDFS.calls_allowed reuse_calls FrontierDFS.init = true
  ∧ ∃ f', FrontierDFS.do_calls reuse_calls FrontierDFS.init = (None, f')
          ∧ (∀ c : nat,
               c ∈ FrontierDFS.set f'
               ↔ c ∈ conf <$> FrontierDFS.stack f')
          ∧ (∀ s, FrontierDFS.contains f' s = true
                  ↔ conf s ∈ conf <$> FrontierDFS.stack f').
Proof.
  assert (Hok : FrontierDFS.calls_allowed reuse_calls FrontierDFS.init
                = true) by (vm_compute; reflexivity).
  split; [exact Hok|].
  exact (membership_set_matches_stack reuse_calls Hok).
Defined.

Lemma elapsed_measured_from_entry_witness :
  (fst to_cell_3
   = Py.Returns (true, [[2]; [1]], Py.PyFloat (3 # 1), (250 # 1000)%Q)
   ∧ [[2]; [1]] ≠ [])
  ∧ log (outside (snd to_cell_3))
    = [] ++ [EvClock (clock 0); EvPrepare; EvClock (clock 1)]
  ∧ (250 # 1000)%Q = Py.round3 (clock 1 - clock 0)%Q.
Proof.
  assert (Hrun : fst to_cell_3
                 = Py.Returns (true, [[2]; [1]], Py.PyFloat (3 # 1),
                               (250 # 1000)%Q))
    by (vm_compute; reflexivity).
  assert (Hplan : [[2]; [1]] ≠ @nil (list nat)) by discriminate.
  split; [split; [exact Hrun | exact Hplan]|].
  exact (elapsed_measured_from_entry applicable transition goal_test clock
           10 start action_set 3 FrontierDFS.init fresh_world
           true _ _ _ Hrun (or_intror Hplan)).
Defined.

(** C9, as the specification states it, fails on the search for cell 3: the only
    reading of the clock after the reset of the frontier is the one that
    ends the run, and the elapsed time of a quarter of a second is counted
    from the reading that precedes the reset. *)
Lemma elapsed_not_measured_since_prepare :
  fst to_cell_3
  = Py.Returns (true, [[2]; [1]], Py.PyFloat (3 # 1), (250 # 1000)%Q)
  ∧ ¬ measured_since_prepare (log (outside (snd to_cell_3)))
        (250 # 1000)%Q.
Proof.
  split; [vm_compute; reflexivity|].
  replace (log (outside (snd to_cell_3)))
    with [EvClock (0 # 4); EvPrepare; EvClock (1 # 4)]
    by (vm_compute; reflexivity).
  intros (before & t0 & between & t1 & Hlog & _).
  destruct before as [|e1 [|e2 [|e3 before]]]; simplify_eq.
  - destruct between; discriminate.
  - destruct before; discriminate.
Qed.

End CorridorRuns.

(** ** The count text beyond three digits *)

Section CountText.
Import Py.

Lemma string_of_list_app l1 l2 :
  string_of_list_ascii (l1 ++ l2)
  = (string_of_list_ascii l1 ++ string_of_list_ascii l2)%string.
Proof. induction l1 as [|c l1 IH]; simpl; [done|]. by rewrite IH. Qed.

Lemma list_of_string_app s1 s2 :
  list_ascii_of_string (s1 ++ s2)
  = list_ascii_of_string s1 ++ list_ascii_of_string s2.
Proof. induction s1 as [|c s1 IH]; simpl; [done|]. by rewrite IH. Qed.

(** Three more digits on the right of a text that is not empty: one more
    comma. *)
Lemma with_commas_three s x y z :
  s ≠ EmptyString →
  with_commas (s ++ String x (String y (String z EmptyString)))
  = (with_commas s ++ String "," (String x (String y (String z EmptyString))))
      %string.
Proof.
  intros Hs. unfold with_commas.
  rewrite list_of_string_app. simpl. rewrite rev_app_distr. simpl.
  destruct (rev (list_ascii_of_string s)) as [|c r] eqn:Hrev.
  { apply (f_equal (@rev ascii)) in Hrev. rewrite rev_involutive in Hrev.
    destruct s; [done | discriminate]. }
  simpl. rewrite <- !app_assoc. simpl.
  by rewrite string_of_list_app.
Qed.

Lemma group3_short l : length l ≤ 3 → group3 l = l.
Proof. destruct l as [|a [|b [|c [|d l]]]]; simpl; try done. lia. Qed.

Lemma with_commas_short s : String.length s ≤ 3 → with_commas s = s.
Proof.
  intros Hs. unfold with_commas. rewrite group3_short.
  - by rewrite rev_involutive, string_of_list_ascii_of_string.
  - rewrite length_rev.
    clear -Hs. revert Hs. generalize 3.
    induction s as [|c s IH]; simpl; intros n Hn; [lia|].
    destruct n; [lia|]. specialize (IH n). lia.
Qed.

Lemma short_ok_all k : (k < 1000)%N → short_ok k = true.
Proof.
  intros Hk.
  assert (Hall : forallb short_ok (N.of_nat <$> seq 0 1000) = true)
    by (vm_compute; reflexivity).
  rewrite forallb_forall in Hall. apply Hall.
  apply list_elem_of_In, list_elem_of_fmap. exists (N.to_nat k).
  split; [by rewrite N2Nat.id|].
  apply list_elem_of_In, in_seq. lia.
Qed.

(** *** The digits of a number from one thousand on *)

Lemma string_of_uint_app l1 l2 :
  NilEmpty.string_of_uint (DecimalFacts.of_list (l1 ++ l2))
  = (NilEmpty.string_of_uint (DecimalFacts.of_list l1)
     ++ NilEmpty.string_of_uint (DecimalFacts.of_list l2))%string.
Proof.
  induction l1 as [|d l1 IH]; simpl; [done|].
  destruct d; simpl; by rewrite IH.
Qed.

Lemma string_of_uint_decimal_app d1 d2 :
  NilEmpty.string_of_uint (Decimal.app d1 d2)
  = (NilEmpty.string_of_uint d1 ++ NilEmpty.string_of_uint d2)%string.
Proof.
  rewrite <- (DecimalFacts.of_list_to_list (Decimal.app d1 d2)).
  rewrite DecimalFacts.app_spec, string_of_uint_app.
  by rewrite !DecimalFacts.of_list_to_list.
Qed.

Lemma usize_length d :
  DecimalPos.Unsigned.usize d
  = N.of_nat (String.length (NilEmpty.string_of_uint d)).
Proof. induction d; simpl; try done; rewrite IHd; lia. Qed.

(** The value of a numeral made of two parts. *)
Lemma of_uint_app d1 d2 :
  N.of_uint (Decimal.app d1 d2)
  = (N.of_uint d1 * 10 ^ DecimalPos.Unsigned.usize d2 + N.of_uint d2)%N.
Proof.
  unfold N.of_uint. rewrite !DecimalPos.Unsigned.of_uint_alt.
  assert (Hrev : Decimal.rev (Decimal.app d1 d2)
                 = Decimal.revapp d2 (Decimal.rev d1)).
  { apply DecimalFacts.to_list_inj.
    rewrite DecimalFacts.rev_spec, DecimalFacts.app_spec,
      DecimalFacts.revapp_spec, DecimalFacts.rev_spec.
    rewrite rev_app_distr. by rewrite rev_append_rev. }
  rewrite Hrev, DecimalPos.Unsigned.of_lu_revapp. lia.
Qed.

(** The numeral of a positive number begins with a digit other than zero,
    so it stays normal when digits are appended. *)
Lemma to_uint_head (a : N) :
  (0 < a)%N →
  ∃ h t, DecimalFacts.to_list (N.to_uint a) = h :: t ∧ h ≠ DecimalFacts.d0.
Proof.
  intros Ha. destruct a as [|p]; [lia|]. simpl.
  pose proof (DecimalN.Unsigned.to_of (Pos.to_uint p)) as Hnorm.
  unfold N.of_uint in Hnorm.
  rewrite DecimalPos.Unsigned.of_to in Hnorm. simpl in Hnorm.
  apply (f_equal DecimalFacts.to_list) in Hnorm.
  rewrite DecimalFacts.unorm_spec in Hnorm.
  pose proof (DecimalPos.Unsigned.to_uint_nonzero p) as Hnz.
  destruct (DecimalFacts.to_list (Pos.to_uint p)) as [|h t] eqn:Hl.
  { vm_compute in Hnorm. discriminate. }
  exists h, t. split; [done|]. intros ->.
  unfold DecimalFacts.lunorm in Hnorm. simpl in Hnorm.
  pose proof (DecimalFacts.length_lnzhead t) as Hlen.
  destruct (DecimalFacts.lnzhead t) as [|h' t'] eqn:Hz.
  - unfold DecimalFacts.lzero in Hnorm. injection Hnorm as ->.
    apply Hnz. apply DecimalFacts.to_list_inj. by rewrite Hl.
  - apply (f_equal (@length _)) in Hnorm. simpl in *. lia.
Qed.

Lemma to_uint_app (a : N) d2 :
  (0 < a)%N →
  N.to_uint (N.of_uint (Decimal.app (N.to_uint a) d2))
  = Decimal.app (N.to_uint a) d2.
Proof.
  intros Ha. rewrite DecimalN.Unsigned.to_of.
  apply DecimalFacts.to_list_inj.
  rewrite DecimalFacts.unorm_spec, DecimalFacts.app_spec.
  destruct (to_uint_head a Ha) as (h & t & -> & Hh).
  unfold DecimalFacts.lunorm.
  change ((h :: t) ++ DecimalFacts.to_list d2)
    with (h :: (t ++ DecimalFacts.to_list d2)).
  by rewrite (DecimalFacts.lnzhead_head_nd0 h _ Hh).
Qed.

(** The digits of [n] are the digits of its thousands followed by the three
    digits of the rest. *)
Lemma digits_thousands n :
  (1000 ≤ n)%N →
  digits n
  = (digits (n `div` 1000) ++ rjust "0" 3 (digits (n `mod` 1000)))%string.
Proof.
  intros Hn.
  set (a := (n `div` 1000)%N). set (b := (n `mod` 1000)%N).
  assert (Ha : (0 < a)%N).
  { unfold a. apply N.div_str_pos. lia. }
  assert (Hb : (b < 1000)%N) by (apply N.mod_lt; lia).
  pose proof (fraction_ok_all b Hb) as HF. unfold fraction_ok in HF.
  destruct (NilEmpty.uint_of_string _) as [d2|] eqn:Hread; [|done].
  apply andb_true_iff in HF as [HF _].
  apply andb_true_iff in HF as [Hval Hlen].
  apply N.eqb_eq in Hval. apply Nat.eqb_eq in Hlen.
  apply NilEmpty.sus in Hread.
  assert (Hn' : n = N.of_uint (Decimal.app (N.to_uint a) d2)).
  { rewrite of_uint_app, DecimalN.Unsigned.of_to, Hval, usize_length, Hread,
      Hlen.
    change (10 ^ N.of_nat 3)%N with 1000%N.
    unfold a, b. rewrite (N.Div0.div_mod n 1000) at 1. lia. }
  unfold digits at 1. rewrite Hn', (to_uint_app a d2 Ha).
  by rewrite string_of_uint_decimal_app, Hread.
Qed.

(** *** Reading the count text back *)

Lemma replace_app old new s1 s2 :
  replace old new (s1 ++ s2)
  = (replace old new s1 ++ replace old new s2)%string.
Proof. induction s1 as [|c s1 IH]; simpl; [done|]. by rewrite IH. Qed.

Lemma replace_absent old new s :
  all_chars (λ c, negb (Ascii.eqb c old)) s = true → replace old new s = s.
Proof.
  induction s as [|c s IH]; simpl; [done|].
  rewrite andb_true_iff, negb_true_iff. intros [-> Hs]. by rewrite IH.
Qed.

Lemma is_digit_not_comma c : is_digit c = true → Ascii.eqb c "," = false.
Proof. intros Hc. by apply is_numeric_not_comma, is_digit_numeric. Qed.

Lemma replace_digits s :
  all_chars is_digit s = true → replace "," "." s = s.
Proof.
  intros Hs. apply replace_absent. apply (all_chars_impl is_digit); [|done].
  intros c Hc. by rewrite (is_digit_not_comma c Hc).
Qed.

Lemma lstrip_spaces k s :
  lstrip (repeat_char " " k ++ s) = lstrip s.
Proof. induction k as [|k IH]; simpl; done. Qed.

(** A text of digits, a point and three digits reads as so many
    thousandths. *)
Lemma float_point_text a b k :
  (b < 1000)%N →
  float (repeat_char " " k ++ digits a ++ String "."
           (rjust "0" 3 (digits b)))
  = Some (Qmake (Z.of_N (a * 1000 + b)) 1000).
Proof.
  intros Hb.
  set (D := digits a). set (F := rjust "0" 3 (digits b)).
  pose proof (fraction_ok_all b Hb) as HF. unfold fraction_ok in HF.
  fold F in HF.
  destruct (NilEmpty.uint_of_string F) as [df|] eqn:HreadF; [|done].
  apply andb_true_iff in HF as [HF HFdig].
  apply andb_true_iff in HF as [HFval HFlen].
  apply N.eqb_eq in HFval. apply Nat.eqb_eq in HFlen.
  assert (HD : all_chars is_digit D = true) by apply digits_are_digits.
  set (body := (D ++ String "." F)%string).
  assert (Hbody : all_chars is_numeric body = true).
  { unfold body. rewrite all_chars_app. simpl.
    rewrite (all_chars_impl _ _ _ is_digit_numeric HD).
    by rewrite (all_chars_impl _ _ _ is_digit_numeric HFdig). }
  assert (Hns : all_chars (λ c, negb (is_space c)) body = true).
  { apply (all_chars_impl is_numeric); [|done].
    intros c Hc. by rewrite (is_numeric_not_space _ Hc). }
  unfold float. rewrite lstrip_spaces, (lstrip_id _ Hns), (rstrip_id _ Hns).
  assert (Hsign : split_sign body = (false, body)).
  { unfold body. destruct (digits_cons a) as (c & r & Hc & Hd).
    fold D in Hc. rewrite Hc. simpl.
    destruct c as [[] [] [] [] [] [] [] []]; try done. }
  rewrite Hsign. unfold body. rewrite (split_dot_digits _ _ HD). simpl.
  unfold D at 1. rewrite digits_read, HreadF.
  destruct (String.length D + String.length F =? 0)%nat eqn:Hlen.
  { apply Nat.eqb_eq in Hlen. lia. }
  rewrite HFlen, DecimalN.Unsigned.of_to, HFval.
  change (Z.to_pos (10 ^ Z.of_nat 3)) with 1000%positive.
  do 2 f_equal. lia.
Qed.

Lemma three_chars s :
  String.length s = 3 →
  ∃ x y z, s = String x (String y (String z EmptyString)).
Proof.
  destruct s as [|x [|y [|z [|u s]]]]; simpl; try done. eauto.
Qed.

Lemma fraction_three b :
  (b < 1000)%N →
  ∃ x y z,
    rjust "0" 3 (digits b) = String x (String y (String z EmptyString)).
Proof.
  intros Hb. pose proof (fraction_ok_all b Hb) as HF.
  unfold fraction_ok in HF.
  destruct (NilEmpty.uint_of_string _); [|done].
  apply andb_true_iff in HF as [HF _].
  apply andb_true_iff in HF as [_ Hlen].
  apply Nat.eqb_eq in Hlen. by apply three_chars.
Qed.

Lemma digits_nonempty a : digits a ≠ EmptyString.
Proof. destruct (digits_cons a) as (c & r & -> & _). done. Qed.

(** The grouped text of a number from one thousand on: the grouped text of
    its thousands, a comma, and the three digits of the rest. *)
Lemma with_commas_thousands n :
  (1000 ≤ n)%N →
  with_commas (digits n)
  = (with_commas (digits (n `div` 1000))
     ++ String "," (rjust "0" 3 (digits (n `mod` 1000))))%string.
Proof.
  intros Hn. rewrite (digits_thousands n Hn).
  destruct (fraction_three (n `mod` 1000)) as (x & y & z & ->).
  { apply N.mod_lt. lia. }
  apply with_commas_three, digits_nonempty.
Qed.

Lemma count_char_app c s1 s2 :
  count_char c (s1 ++ s2) = count_char c s1 + count_char c s2.
Proof. induction s1 as [|c1 s1 IH]; simpl; [done|]. rewrite IH. lia. Qed.

Lemma count_char_replace s :
  count_char "." (replace "," "." s)
  = count_char "," s + count_char "." s.
Proof.
  induction s as [|c s IH]; simpl; [done|]. rewrite IH.
  destruct (Ascii.eqb c ",") eqn:Hc.
  - apply Ascii.eqb_eq in Hc. subst c. simpl. lia.
  - simpl. lia.
Qed.

Lemma count_char_lstrip s : count_char "." (lstrip s) = count_char "." s.
Proof.
  induction s as [|c s IH]; simpl; [done|].
  destruct (is_space c) eqn:Hc; [|done]. rewrite IH.
  destruct (Ascii.eqb c ".") eqn:Hdot; [|done].
  apply Ascii.eqb_eq in Hdot. subst c. discriminate.
Qed.

Lemma count_char_rstrip s : count_char "." (rstrip s) = count_char "." s.
Proof.
  induction s as [|c s IH]; simpl; [done|]. rewrite <- IH.
  destruct (rstrip s) as [|c' r]; [|done].
  destruct (is_space c) eqn:Hc; simpl; [|lia].
  destruct (Ascii.eqb c ".") eqn:Hdot; [|done].
  apply Ascii.eqb_eq in Hdot. subst c. discriminate.
Qed.

Lemma count_char_split_sign s :
  count_char "." (snd (split_sign s)) = count_char "." s.
Proof.
  destruct s as [|c s]; [done|].
  destruct c as [[] [] [] [] [] [] [] []]; reflexivity.
Qed.

Lemma uint_of_string_dot s :
  1 ≤ count_char "." s → NilEmpty.uint_of_string s = None.
Proof.
  induction s as [|c s IH]; simpl; [lia|].
  destruct (Ascii.eqb c ".") eqn:Hdot.
  - apply Ascii.eqb_eq in Hdot. subst c. intros _.
    by destruct (NilEmpty.uint_of_string s).
  - simpl. intros Hs. by rewrite (IH Hs).
Qed.

Lemma split_dot_two s :
  2 ≤ count_char "." s →
  ∃ a r, split_dot s = (a, Some r) ∧ 1 ≤ count_char "." r.
Proof.
  induction s as [|c s IH]; simpl; [lia|].
  destruct (Ascii.eqb c ".") eqn:Hdot; simpl.
  - intros Hs. eexists _, _. split; [done|]. lia.
  - intros Hs. destruct (IH Hs) as (a & r & -> & Hr). eauto.
Qed.

(** A text with two points is no number for [float]. *)
Lemma float_two_points s : 2 ≤ count_char "." s → float s = None.
Proof.
  intros Hs. unfold float.
  pose proof (count_char_split_sign (rstrip (lstrip s))) as Hsign.
  rewrite count_char_rstrip, count_char_lstrip in Hsign.
  destruct (split_sign (rstrip (lstrip s))) as [negative body].
  simpl in Hsign.
  destruct (split_dot_two body) as (a & r & -> & Hr); [lia|]. simpl.
  rewrite (uint_of_string_dot r Hr).
  by destruct (NilEmpty.uint_of_string a).
Qed.

Lemma replace_spaces k : replace "," "." (repeat_char " " k) = repeat_char " " k.
Proof. induction k as [|k IH]; simpl; [done|]. by rewrite IH. Qed.

Lemma fraction_digits b :
  (b < 1000)%N → all_chars is_digit (rjust "0" 3 (digits b)) = true.
Proof.
  intros Hb. pose proof (fraction_ok_all b Hb) as HF.
  unfold fraction_ok in HF.
  destruct (NilEmpty.uint_of_string _); [|done].
  by apply andb_true_iff in HF as [_ HF].
Qed.

(** A count from one thousand up to, but not including, one million comes
    back from the status text a thousand times too small: the comma that
    groups the digits has become a point, and [float] reads it as the decimal
    point. *)
Lemma reported_count_thousands (n : Z) :
  (1000 ≤ n < 1000000)%Z →
  reported_count n = Some (Qmake n 1000).
Proof.
  intros Hn. unfold reported_count, format_8_comma_d.
  replace (n <? 0)%Z with false by (symmetry; apply Z.ltb_ge; lia).
  cbn [sign_prefix append].
  set (m := Z.abs_N n).
  assert (Hm : (1000 ≤ m < 1000000)%N) by (unfold m; lia).
  rewrite (with_commas_thousands m) by lia.
  assert (Ha : (m `div` 1000 < 1000)%N).
  { apply N.Div0.div_lt_upper_bound. lia. }
  assert (Hb : (m `mod` 1000 < 1000)%N) by (apply N.mod_lt; lia).
  rewrite with_commas_short.
  2:{ pose proof (short_ok_all _ Ha) as Hs. unfold short_ok in Hs.
      by apply Nat.leb_le in Hs. }
  unfold rjust at 1. rewrite !replace_app, replace_spaces.
  cbn [replace]. rewrite (replace_digits (digits _)) by apply digits_are_digits.
  rewrite (replace_digits (rjust _ _ _)) by by apply fraction_digits.
  change (if Ascii.eqb "," "," then "."%char else ","%char) with "."%char.
  change (EmptyString ++ ?x)%string with x.
  rewrite float_point_text by done.
  do 2 f_equal. rewrite (N.mul_comm _ 1000), <- N.Div0.div_mod.
  unfold m. lia.
Qed.

(** From one million on the status text has two commas, so the text that
    [float] gets has two points, and [float] raises [ValueError]. *)
Lemma reported_count_millions (n : Z) :
  (1000000 ≤ n)%Z → reported_count n = None.
Proof.
  intros Hn. unfold reported_count. apply float_two_points.
  rewrite count_char_replace. unfold format_8_comma_d, rjust.
  rewrite !count_char_app.
  set (m := Z.abs_N n).
  assert (Hm : (1000000 ≤ m)%N) by (unfold m; lia).
  rewrite (with_commas_thousands m) by lia.
  assert (Ha : (1000 ≤ m `div` 1000)%N).
  { apply N.div_le_lower_bound; lia. }
  rewrite (with_commas_thousands (m `div` 1000)) by done.
  rewrite !count_char_app.
  change (count_char "," (String "," ?x)) with (1 + count_char "," x).
  lia.
Qed.

End CountText.

(** ** More about the search loop *)

Section SearchMore.
Context {Config Action Goal : Type} `{Countable Config}.
Variable applicable : Config → list (list Action) → list (list Action).
Variable transition : Config → list Action → Config.
Variable goal_test : Goal → Config → bool.
Variable clock : nat → Q.
Variable action_set : list (list Action).
Variable goal : Goal.
Variable c0 : Config.

Abbreviation inv' := (core_inv applicable transition goal_test action_set goal c0).
Abbreviation loop' := (search_loop applicable transition goal_test clock).
Abbreviation expand' := (expand applicable transition action_set).
Abbreviation goal' := (is_goal goal_test goal).
Abbreviation reach := (reachable applicable transition action_set c0).
Abbreviation closed := (closed_inv applicable transition action_set c0).
Implicit Types (st : @search Config Action _ _).
Implicit Types (fr : FrontierDFS.t Config Action).
Implicit Types (leaf s : HospitalState Config Action).

Lemma search_loop_unfold fuel st :
  loop' (S fuel) action_set goal st
  = if FrontierDFS.is_empty (frontier st) then return_exhausted clock st
    else
      match FrontierDFS.pop (frontier st) with
      | (inl e, fr) =>
          (Py.Raises e,
           {| frontier := fr; explored := explored st;
              iterations := iterations st; outside := outside st |})
      | (inr leaf, fr) =>
          if goal' leaf
          then return_goal goal_test clock goal leaf (popped fr st)
          else loop' fuel action_set goal (expand' leaf (popped fr st))
      end.
Proof. reflexivity. Qed.

(** One pass of the loop keeps the invariants of the place. *)
Lemma expand_inv st leaf fr :
  inv' st → counted 0 st →
  FrontierDFS.pop (frontier st) = (inr leaf, fr) →
  goal' leaf = false →
  inv' (expand' leaf (popped fr st))
  ∧ counted 0 (expand' leaf (popped fr st)).
Proof.
  intros Hinv Hcount Hpop Hg.
  assert (Hne : FrontierDFS.is_empty (frontier st) = false).
  { destruct (FrontierDFS.is_empty (frontier st)) eqn:Hemp; [|done].
    rewrite (pop_empty _ Hemp) in Hpop. discriminate. }
  destruct (inv_pop applicable transition goal_test action_set goal c0
              st Hinv Hcount Hne) as (leaf' & fr' & Hpop' & Hp).
  rewrite Hpop in Hpop'. injection Hpop' as <- <-.
  apply inv_explore in Hp; [|done]. apply inv_for in Hp. exact Hp.
Qed.

(** A rule for invariants of the loop: what holds on entry and is kept by
    every pass holds where the loop ends. *)
Lemma search_loop_rule (I : @search Config Action _ _ → Prop) :
  (∀ st leaf fr,
     inv' st → counted 0 st → I st →
     FrontierDFS.pop (frontier st) = (inr leaf, fr) →
     goal' leaf = false →
     I (expand' leaf (popped fr st))) →
  ∀ fuel st o st',
    inv' st → counted 0 st → I st →
    loop' fuel action_set goal st = (o, st') →
    o = Py.OutOfFuel
    ∨ (∃ stE, inv' stE ∧ counted 0 stE ∧ I stE
              ∧ FrontierDFS.is_empty (frontier stE) = true
              ∧ outside stE = outside st
              ∧ return_exhausted clock stE = (o, st'))
    ∨ (∃ stG leaf fr,
          inv' stG ∧ counted 0 stG ∧ I stG
          ∧ FrontierDFS.pop (frontier stG) = (inr leaf, fr)
          ∧ goal' leaf = true
          ∧ outside stG = outside st
          ∧ return_goal goal_test clock goal leaf (popped fr stG) = (o, st')).
Proof.
  intros Hkeep fuel. induction fuel as [|fuel IH];
    intros st o st' Hinv Hcount HI Hrun.
  { left. simpl in Hrun. congruence. }
  rewrite search_loop_unfold in Hrun.
  destruct (FrontierDFS.is_empty (frontier st)) eqn:Hemp.
  { right; left. exists st. by split_and!. }
  destruct (inv_pop applicable transition goal_test action_set goal c0
              st Hinv Hcount Hemp) as (leaf & fr & Hpop & _).
  rewrite Hpop in Hrun.
  destruct (goal' leaf) eqn:Hg.
  { right; right. exists st, leaf, fr. by split_and!. }
  destruct (expand_inv st leaf fr Hinv Hcount Hpop Hg) as [Hinv' Hcount'].
  apply IH in Hrun; [exact Hrun|done|done|].
  by apply Hkeep.
Qed.

(** *** What the [for] loop does to the frontier *)

Lemma expand_child_set leaf (ex : gset Config) fr a :
  FrontierDFS.set fr
  ⊆ FrontierDFS.set (expand_child transition leaf ex fr a)
  ∧ (transition (conf leaf) a ∈ ex
     ∨ transition (conf leaf) a
       ∈ FrontierDFS.set (expand_child transition leaf ex fr a)).
Proof.
  destruct (expand_child_cases transition leaf ex fr a)
    as [Heq | (-> & Hex & Hfr)].
  - rewrite Heq. split; [done|]. unfold expand_child in Heq.
    destruct (bool_decide (conf (result transition leaf a) ∈ ex)) eqn:Hin.
    { left. by apply bool_decide_eq_true in Hin. }
    destruct (FrontierDFS.contains fr (result transition leaf a)) eqn:Hc.
    { right. by apply contains_set in Hc. }
    simpl in Heq. exfalso.
    apply (f_equal (λ f, length (FrontierDFS.stack f))) in Heq.
    simpl in Heq. rewrite length_app in Heq. simpl in Heq. lia.
  - split; [|right]; simpl; set_solver.
Qed.

Lemma for_loop_set leaf (ex : gset Config) todo fr :
  FrontierDFS.set fr
  ⊆ FrontierDFS.set (fold_left (expand_child transition leaf ex) todo fr)
  ∧ ∀ a, a ∈ todo →
         transition (conf leaf) a ∈ ex
         ∨ transition (conf leaf) a
           ∈ FrontierDFS.set
               (fold_left (expand_child transition leaf ex) todo fr).
Proof.
  revert fr. induction todo as [|a todo IH]; intros fr; simpl.
  { split; [done|]. intros a Ha. by apply elem_of_nil in Ha. }
  destruct (IH (expand_child transition leaf ex fr a)) as [Hsub Hall].
  destruct (expand_child_set leaf ex fr a) as [Hsub1 Ha1].
  split; [set_solver|].
  intros a' [-> | Ha']%elem_of_cons; [|by apply Hall].
  destruct Ha1 as [Hex | Hin]; [by left | right; set_solver].
Qed.

(** Whatever holds of the states in the frontier and of every successor
    holds of the states in the frontier after the [for] loop. *)
Lemma for_loop_stack (P : HospitalState Config Action → Prop) leaf
  (ex : gset Config) todo fr :
  Forall P (FrontierDFS.stack fr) →
  (∀ a, a ∈ todo → P (result transition leaf a)) →
  Forall P
    (FrontierDFS.stack (fold_left (expand_child transition leaf ex) todo fr)).
Proof.
  revert fr. induction todo as [|a todo IH]; intros fr Hfr Htodo; simpl;
    [done|].
  apply IH; [|intros a' Ha'; apply Htodo; set_solver].
  destruct (expand_child_cases transition leaf ex fr a)
    as [-> | (-> & _ & _)]; [done|].
  simpl. apply Forall_app. split; [done|].
  apply Forall_singleton, Htodo. set_solver.
Qed.

(** *** Reachability *)

Lemma descends_reachable s :
  descends applicable transition action_set c0 s → reach (conf s).
Proof.
  induction 1 as [s _ <- | p a _ IH Ha]; [constructor|].
  simpl. by constructor.
Qed.

Lemma pop_inv st leaf fr :
  inv' st → FrontierDFS.pop (frontier st) = (inr leaf, fr) →
  FrontierDFS.stack (frontier st) = FrontierDFS.stack fr ++ [leaf]
  ∧ FrontierDFS.set fr = FrontierDFS.set (frontier st) ∖ {[conf leaf]}
  ∧ conf leaf ∈ FrontierDFS.set (frontier st)
  ∧ (conf leaf ∉ explored st)
  ∧ descends applicable transition action_set c0 leaf.
Proof.
  intros (Hcons & Hdisj & Hdesc & _) Hpop.
  assert (Hne : FrontierDFS.is_empty (frontier st) = false).
  { destruct (FrontierDFS.is_empty (frontier st)) eqn:Hemp; [|done].
    rewrite (pop_empty _ Hemp) in Hpop. discriminate. }
  destruct (pop_consistent _ Hcons Hne)
    as (leaf' & fr' & Hpop' & Hstack & Hset & _ & _).
  rewrite Hpop in Hpop'. injection Hpop' as <- <-.
  assert (Hin : conf leaf ∈ FrontierDFS.set (frontier st)).
  { destruct Hcons as [_ Hs]. apply Hs. rewrite Hstack, fmap_app.
    set_solver. }
  split_and!; [done|done|done|set_solver|].
  rewrite Hstack in Hdesc. apply Forall_app in Hdesc as [_ Hleaf].
  by apply Forall_inv in Hleaf.
Qed.

Lemma closed_keep st leaf fr :
  inv' st → counted 0 st → closed st →
  FrontierDFS.pop (frontier st) = (inr leaf, fr) →
  goal' leaf = false →
  closed (expand' leaf (popped fr st)).
Proof.
  intros Hinv _ (Hc0 & Hreach & Hclosed) Hpop _.
  destruct (pop_inv st leaf fr Hinv Hpop) as (_ & Hset & _ & _ & Hleaf).
  unfold closed_inv, expand, popped. cbn [frontier explored].
  destruct (for_loop_set leaf ({[conf leaf]} ∪ explored st)
              (get_applicable_actions applicable leaf action_set) fr)
    as [Hsub Hall].
  assert (Hold : ∀ c, c ∈ FrontierDFS.set (frontier st) →
                      c ∈ {[conf leaf]} ∪ explored st
                      ∨ c ∈ FrontierDFS.set
                            (fold_left
                               (expand_child transition leaf
                                  ({[conf leaf]} ∪ explored st))
                               (get_applicable_actions applicable leaf
                                  action_set) fr)).
  { intros c Hc. destruct (decide (c = conf leaf)) as [-> | Hne];
      [left; set_solver|right]. apply Hsub. rewrite Hset. set_solver. }
  split_and!.
  - destruct Hc0 as [Hc0 | Hc0]; [left; set_solver | by apply Hold].
  - intros c [->%elem_of_singleton | Hc]%elem_of_union; [|by apply Hreach].
    by apply descends_reachable.
  - intros c a [->%elem_of_singleton | Hc]%elem_of_union Ha.
    + by apply Hall.
    + destruct (Hclosed c a Hc Ha) as [Hex | Hfr];
        [left; set_solver | by apply Hold].
Qed.

Lemma enter_closed initial_state fr w :
  conf initial_state = c0 →
  closed (enter clock initial_state goal fr w).
Proof.
  intros <-. unfold closed_inv, enter. simpl.
  split_and!; [right|..]; set_solver.
Qed.

(** When the frontier is empty, the explored set is the set of reachable
    configurations. *)
Lemma closed_exhausted st :
  inv' st → closed st → FrontierDFS.is_empty (frontier st) = true →
  ∀ c, c ∈ explored st ↔ reach c.
Proof.
  intros ([_ Hs] & _) (Hc0 & Hreach & Hclosed) Hemp%is_empty_true.
  assert (Hnone : ∀ c, c ∉ FrontierDFS.set (frontier st)).
  { intros c Hc%Hs. rewrite Hemp in Hc. by apply elem_of_nil in Hc. }
  intros c. split; [apply Hreach|].
  induction 1 as [|c a _ IH Ha].
  - destruct Hc0 as [Hc0 | Hc0]; [done | by apply Hnone in Hc0].
  - destruct (Hclosed c a IH Ha) as [Hex | Hfr]; [done|].
    by apply Hnone in Hfr.
Qed.

(** *** Paths without repetition *)

Lemma path_confs_ancestors s : path_confs s = ancestors s ++ [conf s].
Proof. by destruct s as [c [p|] ja pc]. Qed.

Lemma acyclic_keep st leaf fr :
  inv' st → counted 0 st → acyclic_inv st →
  FrontierDFS.pop (frontier st) = (inr leaf, fr) →
  goal' leaf = false →
  acyclic_inv (expand' leaf (popped fr st)).
Proof.
  intros Hinv _ Hacyc Hpop _.
  destruct (pop_inv st leaf fr Hinv Hpop) as (Hstack & _ & _ & Hnew & _).
  unfold acyclic_inv in *. rewrite Hstack in Hacyc.
  apply Forall_app in Hacyc as [Hrest Hleaf].
  apply Forall_inv in Hleaf as [Hnd Hanc].
  unfold expand, popped. cbn [frontier explored].
  apply for_loop_stack.
  - eapply Forall_impl; [exact Hrest|].
    intros s [Hs1 Hs2]. split; [done|]. intros c Hc. set_solver.
  - intros a _. change (ancestors (result transition leaf a))
      with (path_confs leaf).
    rewrite path_confs_ancestors. split.
    + apply NoDup_app. split_and!; [done| |apply NoDup_singleton].
      intros c Hc ->%list_elem_of_singleton. by apply Hnew, Hanc.
    + intros c [Hc | ->%list_elem_of_singleton]%elem_of_app;
        [|set_solver]. specialize (Hanc c Hc). set_solver.
Qed.

Lemma enter_acyclic initial_state fr w :
  acyclic_inv (enter clock initial_state goal fr w).
Proof.
  unfold acyclic_inv, enter. simpl. apply Forall_singleton.
  split; [constructor|]. intros c Hc. by apply elem_of_nil in Hc.
Qed.

(** The state that is popped has a path without repetition behind it. *)
Lemma acyclic_pop st leaf fr :
  inv' st → acyclic_inv st →
  FrontierDFS.pop (frontier st) = (inr leaf, fr) →
  NoDup (path_confs leaf).
Proof.
  intros Hinv Hacyc Hpop.
  destruct (pop_inv st leaf fr Hinv Hpop) as (Hstack & _ & _ & Hnew & _).
  unfold acyclic_inv in Hacyc. rewrite Hstack in Hacyc.
  apply Forall_app in Hacyc as [_ Hleaf].
  apply Forall_inv in Hleaf as [Hnd Hanc].
  rewrite path_confs_ancestors.
  apply NoDup_app. split_and!; [done| |apply NoDup_singleton].
  intros c Hc ->%list_elem_of_singleton. by apply Hnew, Hanc.
Qed.

Lemma visited_snoc c plan c' a :
  executes applicable transition action_set c plan c' →
  visited transition c (plan ++ [a])
  = visited transition c plan ++ [transition c' a].
Proof.
  induction 1 as [c | c b plan c' _ _ IH]; simpl; [done|].
  by rewrite IH.
Qed.

(** The configurations behind a generated state are the ones that carrying
    out its plan passes through. *)
Lemma descends_visited s :
  descends applicable transition action_set c0 s →
  path_confs s = visited transition c0 (extract_plan s).
Proof.
  induction 1 as [s Hroot <- | p a Hp IH Ha].
  - destruct s as [c par ja pc]. simpl in *. by subst.
  - simpl. rewrite IH. symmetry. apply visited_snoc.
    by apply descends_executes.
Qed.

(** *** Enough fuel *)

Lemma return_exhausted_returns st :
  fst (return_exhausted clock st) ≠ Py.OutOfFuel.
Proof. by rewrite return_exhausted_spec. Qed.

Lemma return_goal_returns leaf st :
  fst (return_goal goal_test clock goal leaf st) ≠ Py.OutOfFuel.
Proof.
  rewrite return_goal_spec. simpl. by destruct (Py.reported_count _).
Qed.

(** When all reachable configurations lie in a finite set, the loop ends
    before the explored set can outgrow it. *)
Lemma search_loop_terminates (U : gset Config) fuel st :
  (∀ c, reach c → c ∈ U) →
  inv' st → counted 0 st → closed st →
  size U < fuel + size (explored st) →
  fst (loop' fuel action_set goal st) ≠ Py.OutOfFuel.
Proof.
  intros HU. revert st. induction fuel as [|fuel IH];
    intros st Hinv Hcount Hclosed Hsize.
  { exfalso. assert (Hsub : explored st ⊆ U).
    { intros c Hc. apply HU. by apply Hclosed. }
    apply subseteq_size in Hsub. simpl in Hsize. lia. }
  rewrite search_loop_unfold.
  destruct (FrontierDFS.is_empty (frontier st)) eqn:Hemp;
    [apply return_exhausted_returns|].
  destruct (inv_pop applicable transition goal_test action_set goal c0
              st Hinv Hcount Hemp) as (leaf & fr & Hpop & _).
  rewrite Hpop.
  destruct (goal' leaf) eqn:Hg; [apply return_goal_returns|].
  destruct (expand_inv st leaf fr Hinv Hcount Hpop Hg) as [Hinv' Hcount'].
  apply IH; [done|done|by apply closed_keep|].
  destruct (pop_inv st leaf fr Hinv Hpop) as (_ & _ & _ & Hnew & _).
  unfold expand, popped. cbn [explored].
  rewrite size_union by set_solver. rewrite size_singleton. lia.
Qed.

(** More fuel than a call needs changes nothing. *)
Lemma search_loop_more_fuel fuel extra st :
  fst (loop' fuel action_set goal st) ≠ Py.OutOfFuel →
  loop' (fuel + extra) action_set goal st = loop' fuel action_set goal st.
Proof.
  revert st. induction fuel as [|fuel IH]; intros st Hend; [done|].
  change (S fuel + extra) with (S (fuel + extra)).
  rewrite !search_loop_unfold in *.
  destruct (FrontierDFS.is_empty (frontier st)); [done|].
  destruct (FrontierDFS.pop (frontier st)) as [[e|leaf] fr]; [done|].
  destruct (goal' leaf); [done|]. by apply IH.
Qed.

End SearchMore.

(** ** More about the result of a search *)

Section SearchMoreResults.
Context {Config Action Goal : Type} `{Countable Config}.
Variable applicable : Config → list (list Action) → list (list Action).
Variable transition : Config → list Action → Config.
Variable goal_test : Goal → Config → bool.
Variable clock : nat → Q.

Abbreviation run_search := (graph_search applicable transition goal_test clock).
Implicit Types (initial_state : HospitalState Config Action).
Implicit Types (action_set plan : list (list Action)) (goal : Goal).
Implicit Types (fr : FrontierDFS.t Config Action) (w : world).

(** How a call can end, with everything that is known where it ends. *)
Lemma graph_search_ends fuel initial_state action_set goal fr w :
  let r := run_search fuel initial_state action_set goal fr w in
  let c0 := conf initial_state in
  let known st :=
    core_inv applicable transition goal_test action_set goal c0 st
    ∧ counted 0 st
    ∧ closed_inv applicable transition action_set c0 st
    ∧ acyclic_inv st
    ∧ outside st = outside (enter clock initial_state goal fr w) in
  fst r = Py.OutOfFuel
  ∨ (∃ stE, known stE
            ∧ FrontierDFS.is_empty (frontier stE) = true
            ∧ return_exhausted clock stE = r)
  ∨ (∃ stG leaf fr',
        known stG
        ∧ FrontierDFS.pop (frontier stG) = (inr leaf, fr')
        ∧ is_goal goal_test goal leaf = true
        ∧ return_goal goal_test clock goal leaf (popped fr' stG) = r).
Proof.
  intros r c0 known. subst r. unfold graph_search.
  destruct (search_loop _ _ _ _ _ _ _ _) as [o st'] eqn:Hrun.
  destruct (enter_inv applicable transition goal_test clock action_set goal
              c0 initial_state fr w eq_refl) as [Hinv Hcount].
  apply (search_loop_rule applicable transition goal_test clock action_set
           goal c0
           (λ st, closed_inv applicable transition action_set c0 st
                  ∧ acyclic_inv st)) in Hrun; [|..|done|done|].
  - destruct Hrun as [-> | [(stE & ? & ? & [? ?] & ? & ? & ?)
                           | (stG & leaf & fr' & ? & ? & [? ?] & ? & ? & ? & ?)]];
      [by left|right; left|right; right].
    + exists stE. unfold known. by split_and!.
    + exists stG, leaf, fr'. unfold known. by split_and!.
  - intros st leaf fr' Hi Hc [Hcl Hac] Hpop Hg. split.
    + eapply closed_keep; eauto.
    + eapply acyclic_keep; eauto.
  - split; [by apply enter_closed | apply enter_acyclic].
Qed.

Lemma reachable_within (U : gset Config) action_set c0 :
  c0 ∈ U →
  (∀ c a, c ∈ U → a ∈ applicable c action_set → transition c a ∈ U) →
  ∀ c, reachable applicable transition action_set c0 c → c ∈ U.
Proof.
  intros Hc0 Hclosed c. induction 1 as [|c a _ IH Ha]; [done|].
  by apply (Hclosed c a).
Qed.

(** X1. A search that returns without success has explored exactly the
    configurations that applicable joint actions lead to from the initial
    one: none of them passes the goal test, and the count in the result is
    their number. *)
Theorem failure_explores_all_reachable fuel initial_state action_set goal
  fr w plan n t :
  fst (run_search fuel initial_state action_set goal fr w)
  = Py.Returns (false, plan, n, t) →
  (∀ c, c ∈ explored
            (snd (run_search fuel initial_state action_set goal fr w))
        ↔ reachable applicable transition action_set (conf initial_state) c)
  ∧ (∀ c, reachable applicable transition action_set (conf initial_state) c →
          goal_test goal c = false)
  ∧ n = Py.PyInt
          (Z.of_nat
             (size (explored
                      (snd (run_search fuel initial_state action_set goal
                              fr w))))).
Proof.
  intros Hret.
  destruct (graph_search_ends fuel initial_state action_set goal fr w)
    as [Hout | [(stE & (Hinv & Hcount & Hclosed & _ & _) & Hemp & HE)
               | (stG & leaf & fr' & _ & _ & Hg & HG)]].
  - congruence.
  - rewrite <- HE in *. rewrite return_exhausted_spec in *.
    cbn [fst snd explored] in *. injection Hret as <- <- <-.
    pose proof (closed_exhausted applicable transition goal_test action_set
                  goal (conf initial_state) stE Hinv Hclosed Hemp) as Hall.
    split_and!; [done| |].
    + intros c Hc%Hall. destruct Hinv as (_ & _ & _ & Hgoal). by apply Hgoal.
    + f_equal. unfold counted in Hcount. lia.
  - rewrite <- HG, return_goal_spec in Hret. simpl in Hret.
    destruct (Py.reported_count _); [|congruence].
    injection Hret as Hfalse _ _ _. congruence.
Qed.

(** X2. When the initial configuration lies in a finite set of
    configurations that no applicable joint action leads out of, the loop
    ends after at most as many passes as the set has members, plus one for
    the pass that finds the frontier empty: with that much fuel the model
    has an outcome, and more fuel does not change it. *)
Theorem graph_search_terminates (U : gset Config) fuel initial_state
  action_set goal fr w :
  conf initial_state ∈ U →
  (∀ c a, c ∈ U → a ∈ applicable c action_set → transition c a ∈ U) →
  size U < fuel →
  fst (run_search fuel initial_state action_set goal fr w) ≠ Py.OutOfFuel
  ∧ run_search fuel initial_state action_set goal fr w
    = run_search (S (size U)) initial_state action_set goal fr w.
Proof.
  intros Hc0 HU Hfuel.
  pose proof (reachable_within U action_set (conf initial_state) Hc0 HU)
    as Hreach.
  destruct (enter_inv applicable transition goal_test clock action_set goal
              (conf initial_state) initial_state fr w eq_refl)
    as [Hinv Hcount].
  assert (Hclosed : closed_inv applicable transition action_set
                      (conf initial_state)
                      (enter clock initial_state goal fr w))
    by by apply enter_closed.
  assert (Hend : ∀ k, size U < k →
                      fst (run_search k initial_state action_set goal fr w)
                      ≠ Py.OutOfFuel).
  { intros k Hk. unfold graph_search.
    eapply search_loop_terminates; eauto.
    change (explored (enter clock initial_state goal fr w))
      with (∅ : gset Config).
    rewrite size_empty. lia. }
  split; [by apply Hend|].
  unfold graph_search.
  replace fuel with (S (size U) + (fuel - S (size U))) by lia.
  apply search_loop_more_fuel. apply (Hend (S (size U))). lia.
Qed.

(** X3. The plan of a successful search never comes back to a configuration
    it has left: the configurations that carrying it out passes through,
    from the initial one to the goal, are pairwise different. *)
Theorem plan_visits_no_configuration_twice fuel initial_state action_set
  goal fr w plan n t :
  fst (run_search fuel initial_state action_set goal fr w)
  = Py.Returns (true, plan, n, t) →
  NoDup (visited transition (conf initial_state) plan).
Proof.
  intros Hret.
  destruct (graph_search_ends fuel initial_state action_set goal fr w)
    as [Hout | [(stE & _ & _ & HE)
               | (stG & leaf & fr' & (Hinv & _ & _ & Hacyc & _) & Hpop & _
                  & HG)]].
  - congruence.
  - rewrite <- HE, return_exhausted_spec in Hret. simpl in Hret. congruence.
  - rewrite <- HG, return_goal_spec in Hret. simpl in Hret.
    destruct (Py.reported_count _); [|congruence].
    injection Hret as _ <- _ _.
    destruct (pop_inv applicable transition goal_test action_set goal
                (conf initial_state) stG leaf fr' Hinv Hpop)
      as (_ & _ & _ & _ & Hleaf).
    rewrite <- (descends_visited applicable transition action_set
                  (conf initial_state) leaf Hleaf).
    eapply acyclic_pop; eauto.
Qed.

(** X4. The frontier operations never fail inside [graph_search]: no call
    ends with the [IndexError] of a pop from an empty stack or with the
    [KeyError] of a removal from the membership set.  The one exception a
    call can end with is the [ValueError] of [float]. *)
Theorem graph_search_frontier_never_raises fuel initial_state action_set
  goal fr w :
  match fst (run_search fuel initial_state action_set goal fr w) with
  | Py.Raises e => e = Py.ValueError
  | _ => True
  end.
Proof.
  destruct (graph_search_ends fuel initial_state action_set goal fr w)
    as [-> | [(stE & _ & _ & <-) | (stG & leaf & fr' & _ & _ & _ & <-)]].
  - done.
  - by rewrite return_exhausted_spec.
  - rewrite return_goal_spec. simpl. by destruct (Py.reported_count _).
Qed.

(** X5. The count in the result of a successful search, where [c] is the
    length of the plan plus the size of the frontier: below one thousand it
    is [c]; from one thousand on it is [c] divided by one thousand; and [c]
    is below one million, since from there on the call raises instead of
    returning. *)
Theorem generated_count_value fuel initial_state action_set goal fr w
  plan n t :
  fst (run_search fuel initial_state action_set goal fr w)
  = Py.Returns (true, plan, n, t) →
  let c := (Z.of_nat (length plan)
            + FrontierDFS.size
                (frontier
                   (snd (run_search fuel initial_state action_set goal
                           fr w))))%Z in
  (c < 1000000)%Z
  ∧ n = Py.PyFloat (if (c <? 1000)%Z then inject_Z c else Qmake c 1000).
Proof.
  intros Hret.
  destruct (graph_search_ends fuel initial_state action_set goal fr w)
    as [Hout | [(stE & _ & _ & HE) | (stG & leaf & fr' & _ & _ & _ & HG)]].
  - congruence.
  - rewrite <- HE, return_exhausted_spec in Hret. simpl in Hret. congruence.
  - rewrite <- HG in *. rewrite return_goal_spec in *.
    cbn [fst snd frontier popped] in *.
    destruct (Py.reported_count _) as [q|] eqn:Hq; [|congruence].
    injection Hret as _ <- <- _. cbv zeta.
    set (c := (Z.of_nat (length (extract_plan leaf))
               + FrontierDFS.size fr')%Z) in *.
    assert (Hc : (0 ≤ c)%Z) by (unfold c, FrontierDFS.size; lia).
    destruct (Z.ltb_spec c 1000) as [Hsmall | Hbig].
    + rewrite reported_count_small in Hq by lia.
      injection Hq as <-. split; [lia|done].
    + destruct (Z.ltb_spec c 1000000) as [Hlt | Hge].
      * rewrite reported_count_thousands in Hq by lia.
        injection Hq as <-. done.
      * rewrite reported_count_millions in Hq by lia. discriminate.
Qed.

Lemma length_le_size (l : list Config) (X : gset Config) :
  NoDup l → (∀ c, c ∈ l → c ∈ X) → length l ≤ size X.
Proof.
  intros Hnd Hsub. rewrite <- (size_list_to_set (C := gset Config) l Hnd).
  apply subseteq_size. set_solver.
Qed.

Lemma visited_length c plan :
  length (visited transition c plan) = S (length plan).
Proof.
  revert c. induction plan as [|a plan IH]; intros c; simpl; [done|].
  by rewrite IH.
Qed.

(** Where a goal is found, the plan is no longer than the explored set is
    large. *)
Lemma goal_found_plan_length action_set goal c0
  (stG : @search Config Action _ _) leaf fr' :
  core_inv applicable transition goal_test action_set goal c0 stG →
  acyclic_inv stG →
  FrontierDFS.pop (frontier stG) = (inr leaf, fr') →
  length (extract_plan leaf) ≤ size (explored stG).
Proof.
  intros Hinv Hacyc Hpop.
  destruct (pop_inv applicable transition goal_test action_set goal c0
              stG leaf fr' Hinv Hpop) as (Hstack & _ & _ & _ & Hleaf).
  unfold acyclic_inv in Hacyc. rewrite Hstack in Hacyc.
  apply Forall_app in Hacyc as [_ Hanc].
  apply Forall_inv in Hanc as [Hand Hanc].
  pose proof (descends_visited applicable transition action_set c0 leaf
                Hleaf) as Hv.
  apply (f_equal (@length _)) in Hv.
  rewrite path_confs_ancestors, length_app, visited_length in Hv.
  simpl in Hv.
  pose proof (length_le_size _ _ Hand Hanc) as Hle. lia.
Qed.

(** And plan, frontier and popped state together fit into any set that holds
    the reachable configurations. *)
Lemma goal_found_sizes action_set goal c0
  (stG : @search Config Action _ _) leaf fr' (U : gset Config) :
  core_inv applicable transition goal_test action_set goal c0 stG →
  counted 0 stG →
  closed_inv applicable transition action_set c0 stG →
  acyclic_inv stG →
  FrontierDFS.pop (frontier stG) = (inr leaf, fr') →
  (∀ c, reachable applicable transition action_set c0 c → c ∈ U) →
  (Z.of_nat (length (extract_plan leaf)) + FrontierDFS.size fr'
   < Z.of_nat (size U))%Z.
Proof.
  intros Hinv Hcount (_ & Hreach & _) Hacyc Hpop HU.
  pose proof (goal_found_plan_length action_set goal c0 stG leaf fr' Hinv
                Hacyc Hpop) as Hle.
  destruct (pop_inv applicable transition goal_test action_set goal c0
              stG leaf fr' Hinv Hpop) as (Hstack & Hset & Hin & Hnew & Hleaf).
  assert (Hne : FrontierDFS.is_empty (frontier stG) = false).
  { destruct (FrontierDFS.is_empty (frontier stG)) eqn:Hemp; [|done].
    rewrite (pop_empty _ Hemp) in Hpop. discriminate. }
  destruct (inv_pop applicable transition goal_test action_set goal c0
              stG Hinv Hcount Hne) as (leaf' & fr'' & Hpop' & Hp).
  rewrite Hpop in Hpop'. injection Hpop' as <- <-.
  destruct Hp as (([Hnd Hs] & Hdisj & Hdesc & _) & _ & _ & Hnf & _).
  cbn [frontier explored popped] in *.
  assert (Hfr : length (FrontierDFS.stack fr') = size (FrontierDFS.set fr')).
  { rewrite <- (length_fmap conf),
      <- (size_list_to_set (C := gset Config) _ Hnd).
    f_equal. apply set_eq. intros c.
    by rewrite elem_of_list_to_set, Hs. }
  assert (Hall : FrontierDFS.set fr' ∪ explored stG ∪ {[conf leaf]} ⊆ U).
  { intros c [[Hc | Hc]%elem_of_union | ->%elem_of_singleton]%elem_of_union.
    - apply HU. apply Hs, list_elem_of_fmap in Hc as (s & -> & Hs').
      apply descends_reachable.
      by apply (proj1 (Forall_forall _ _) Hdesc).
    - by apply HU, Hreach.
    - by apply HU, descends_reachable. }
  apply subseteq_size in Hall.
  rewrite !size_union, size_singleton in Hall by set_solver.
  unfold FrontierDFS.size. lia.
Qed.

(** X13. The search is complete on a finite space.  When the initial
    configuration lies in a set of at most a million configurations that no
    applicable joint action leads out of, and some configuration that can be
    reached passes the goal test, then a call with more fuel than the set
    has members returns with success. *)
Theorem graph_search_complete (U : gset Config) fuel initial_state
  action_set goal fr w g :
  conf initial_state ∈ U →
  (∀ c a, c ∈ U → a ∈ applicable c action_set → transition c a ∈ U) →
  size U < fuel →
  (Z.of_nat (size U) ≤ 1000000)%Z →
  reachable applicable transition action_set (conf initial_state) g →
  goal_test goal g = true →
  ∃ plan n t,
    fst (run_search fuel initial_state action_set goal fr w)
    = Py.Returns (true, plan, n, t).
Proof.
  intros Hc0 HU Hfuel Hsize Hg Hgoal.
  pose proof (reachable_within U action_set (conf initial_state) Hc0 HU)
    as Hreach.
  assert (Hend : fst (run_search fuel initial_state action_set goal fr w)
                 ≠ Py.OutOfFuel).
  { destruct (enter_inv applicable transition goal_test clock action_set
                goal (conf initial_state) initial_state fr w eq_refl)
      as [Hinv Hcount].
    unfold graph_search. eapply search_loop_terminates; eauto.
    - by apply enter_closed.
    - change (explored (enter clock initial_state goal fr w))
        with (∅ : gset Config).
      rewrite size_empty. lia. }
  destruct (graph_search_ends fuel initial_state action_set goal fr w)
    as [Hout | [(stE & (Hinv & _ & Hclosed & _ & _) & Hemp & HE)
               | (stG & leaf & fr' & (Hinv & Hcount & Hclosed & Hacyc & _)
                  & Hpop & Hleaf & HG)]].
  - congruence.
  - exfalso.
    pose proof (closed_exhausted applicable transition goal_test action_set
                  goal (conf initial_state) stE Hinv Hclosed Hemp g) as Hall.
    apply Hall in Hg. destruct Hinv as (_ & _ & _ & Hno).
    rewrite (Hno g Hg) in Hgoal. discriminate.
  - rewrite <- HG, return_goal_spec. cbn [fst frontier popped].
    pose proof (goal_found_sizes action_set goal (conf initial_state) stG
                  leaf fr' U Hinv Hcount Hclosed Hacyc Hpop Hreach) as Hlt.
    rewrite Hleaf.
    set (c := (Z.of_nat (length (extract_plan leaf))
               + FrontierDFS.size fr')%Z) in *.
    assert (Hc : (0 ≤ c)%Z) by (unfold c, FrontierDFS.size; lia).
    destruct (Z.ltb_spec c 1000) as [Hsmall | Hbig].
    + rewrite reported_count_small by lia. eauto.
    + rewrite reported_count_thousands by lia. eauto.
Qed.

(** X14. The count that a successful search returns is built from a number
    that is too small: the length of the plan, which takes the place of the
    number of popped states, is less than that number, so that the length of
    the plan plus the size of the frontier is less than the number of states
    that have been generated. *)
Theorem plan_shorter_than_expansions fuel initial_state action_set goal
  fr w plan n t :
  fst (run_search fuel initial_state action_set goal fr w)
  = Py.Returns (true, plan, n, t) →
  (Z.of_nat (length plan)
   < iterations (snd (run_search fuel initial_state action_set goal fr w)))%Z.
Proof.
  intros Hret.
  destruct (graph_search_ends fuel initial_state action_set goal fr w)
    as [Hout | [(stE & _ & _ & HE)
               | (stG & leaf & fr' & (Hinv & Hcount & Hclosed & Hacyc & _)
                  & Hpop & _ & HG)]].
  - congruence.
  - rewrite <- HE, return_exhausted_spec in Hret. simpl in Hret. congruence.
  - rewrite <- HG in *. rewrite return_goal_spec in *.
    cbn [fst snd iterations popped] in *.
    destruct (Py.reported_count _); [|congruence].
    injection Hret as _ <- _ _.
    pose proof (goal_found_plan_length action_set goal (conf initial_state)
                  stG leaf fr' Hinv Hacyc Hpop) as Hle.
    unfold counted in Hcount. lia.
Qed.

End SearchMoreResults.

(** ** More about the depth-first frontier *)

Section FrontierMore.
Context {Config Action : Type} `{Countable Config}.
Import FrontierDFS.
Implicit Types (f : FrontierDFS.t Config Action).
Implicit Types (s : HospitalState Config Action).
Implicit Types (l : list (HospitalState Config Action)).

Lemma pop_add f s :
  contains f s = false → pop (add f s) = (inr s, f).
Proof.
  intros Hc. unfold pop, add. cbn [stack set].
  rewrite list_pop_snoc. unfold set_remove.
  rewrite decide_True by set_solver.
  assert (Hnot : conf s ∉ set f).
  { intros Hin%contains_set. congruence. }
  destruct f as [st X]. cbn [stack set] in *. do 2 f_equal. set_solver.
Qed.

Lemma pop_n_snoc k f l f1 s f2 :
  pop_n k f = (inr l, f1) → pop f1 = (inr s, f2) →
  pop_n (S k) f = (inr (l ++ [s]), f2).
Proof.
  revert f l. induction k as [|k IH]; intros f l Hk Hpop.
  - simpl in Hk. injection Hk as <- <-. simpl. by rewrite Hpop.
  - cbn [pop_n] in Hk. change (pop_n (S (S k)) f)
      with (match pop f with
            | (inl e, f') => (inl e, f')
            | (inr state, f') =>
                match pop_n (S k) f' with
                | (inl e, f'') => (inl e, f'')
                | (inr states, f'') => (inr (state :: states), f'')
                end
            end).
    destruct (pop f) as [[e|s0] f0]; [done|].
    destruct (pop_n k f0) as [[e|l0] f0'] eqn:Hk0; [done|].
    injection Hk as <- <-.
    by rewrite (IH f0 l0 Hk0 Hpop).
Qed.

(** X6. Last in, first out, for any number of states: after [add] for each
    state of a list, none of them in the frontier before and no two of them
    alike, as many calls of [pop] return the states in the reverse order and
    leave the frontier exactly as it was. *)
Theorem pop_reverses_add l f :
  consistent f →
  NoDup (conf <$> l) →
  (∀ s, s ∈ l → contains f s = false) →
  pop_n (length l) (add_all l f) = (inr (rev l), f).
Proof.
  revert f. induction l as [|s l IH]; intros f Hf Hnd Hnew; [done|].
  cbn [add_all fold_left length rev]. rewrite fmap_cons in Hnd.
  apply NoDup_cons in Hnd as [Hs Hnd].
  assert (Hc : contains f s = false) by (apply Hnew; set_solver).
  apply (pop_n_snoc _ _ _ (add f s)); [|by apply pop_add].
  apply IH; [by apply add_consistent|done|].
  intros s' Hs'. apply bool_decide_eq_false. cbn [add set].
  assert (conf s' ≠ conf s).
  { intros Heq. apply Hs. rewrite <- Heq. by apply list_elem_of_fmap_2. }
  assert (conf s' ∉ set f).
  { intros Hin%contains_set. rewrite Hnew in Hin; [done|set_solver]. }
  set_solver.
Qed.

(** X7. An [add] of a state that the frontier already contains spoils the
    membership index: the next [pop] returns the state and takes its
    configuration out of the set, so that [contains] now denies a state that
    is still on the stack. *)
Theorem duplicate_add_hides_state f s :
  consistent f → contains f s = true →
  ∃ f', pop (add f s) = (inr s, f')
        ∧ stack f' = stack f
        ∧ contains f' s = false
        ∧ conf s ∈ conf <$> stack f'.
Proof.
  intros [_ Hset] Hc. unfold pop, add. cbn [stack set].
  rewrite list_pop_snoc. unfold set_remove.
  rewrite decide_True by set_solver.
  eexists. split_and!; [done|done| |].
  - apply bool_decide_eq_false. cbn [set]. set_solver.
  - cbn [stack]. apply Hset. by apply contains_set.
Qed.

(** X8. A [pop] that fails in the membership set has already shortened the
    stack: when the configuration of the state on top is not in the set, the
    call raises [KeyError], the state is gone from the stack and the set is
    as before. *)
Theorem pop_key_error_drops_state f l s :
  stack f = l ++ [s] → conf s ∉ set f →
  pop f = (inl Py.KeyError, {| stack := l; set := set f |}).
Proof.
  intros Hstack Hnot. unfold pop. rewrite Hstack, list_pop_snoc.
  unfold set_remove. by rewrite decide_False.
Qed.

End FrontierMore.

(** ** More about the status texts *)

Section StatusTexts.
Context {Config Action : Type} `{Countable Config}.
Variable clock : nat → Q.
Implicit Types (fr : FrontierDFS.t Config Action) (w : world).




(** X10. The count in the text of [print_search_status] reads back as a
    number exactly when it is below one million: from one million on the
    text has two grouping marks, and [float] raises [ValueError] on it. *)
Theorem count_text_unreadable {A : Type} (expanded : list A) fr w :
  Py.float (fst (fst (print_search_status clock expanded fr w))) = None
  ↔ (1000000 ≤ Z.of_nat (length expanded) + FrontierDFS.size fr)%Z.
Proof.
  assert (Htext : Py.float
                    (fst (fst (print_search_status clock expanded fr w)))
                  = Py.reported_count
                      (Z.of_nat (length expanded) + FrontierDFS.size fr)).
  { unfold print_search_status.
    by destruct (length expanded =? 0)%nat. }
  rewrite Htext.
  set (c := (Z.of_nat (length expanded) + FrontierDFS.size fr)%Z).
  assert (Hc : (0 ≤ c)%Z) by (unfold c, FrontierDFS.size; lia).
  split; [|apply reported_count_millions].
  intros Hnone.
  destruct (Z.ltb_spec c 1000) as [Hsmall | Hbig].
  { rewrite reported_count_small in Hnone by lia. discriminate. }
  destruct (Z.ltb_spec c 1000000) as [Hlt | Hge]; [|done].
  rewrite reported_count_thousands in Hnone by lia. discriminate.
Qed.

End StatusTexts.

(** ** The clock during a search *)

Section SearchTiming.
Context {Config Action Goal : Type} `{Countable Config}.
Variable applicable : Config → list (list Action) → list (list Action).
Variable transition : Config → list Action → Config.
Variable goal_test : Goal → Config → bool.
Variable clock : nat → Q.

Abbreviation timed_search :=
  (graph_search applicable transition goal_test clock).

(** X11. What a call that returns has done with the clock.  It has read it
    twice and left the first reading in [start_time]; or, when it succeeds
    with an empty plan, three times, and left the second reading there.  The
    elapsed time in the result is the last reading minus the [start_time]
    that is left behind, rounded to thousandths in the case of success. *)
Theorem graph_search_clock_readings fuel
  (initial_state : HospitalState Config Action) action_set goal
  (fr : FrontierDFS.t Config Action) w ok plan n t :
  fst (timed_search fuel initial_state action_set goal fr w)
  = Py.Returns (ok, plan, n, t) →
  let again := ok && (length plan =? 0)%nat in
  reads (outside (snd (timed_search fuel initial_state action_set goal fr w)))
  = (if again then 3 else 2) + reads w
  ∧ start_time
      (outside (snd (timed_search fuel initial_state action_set goal fr w)))
    = clock ((if again then 1 else 0) + reads w)
  ∧ t = (if ok
         then Py.round3
                (clock ((if again then 2 else 1) + reads w)
                 - clock ((if again then 1 else 0) + reads w))
         else clock (1 + reads w) - clock (reads w))%Q.
Proof.
  intros Hret.
  destruct (graph_search_ends applicable transition goal_test clock fuel
              initial_state action_set goal fr w)
    as [Hout | [(stE & (_ & _ & _ & _ & Hw) & _ & HE)
               | (stG & leaf & fr' & (_ & _ & _ & _ & Hw) & _ & Hg & HG)]];
    [congruence|..]; rewrite enter_world in Hw.
  - rewrite <- HE in *. rewrite return_exhausted_spec in *.
    cbn [fst snd outside] in *. injection Hret as <- <- <- <-.
    rewrite Hw. cbn [time_time snd reads start_time andb]. done.
  - rewrite <- HG in *. rewrite return_goal_spec in *.
    cbn [fst snd outside popped] in *.
    destruct (Py.reported_count _); [|congruence].
    injection Hret as <- <- <- <-. rewrite Hg, Hw. cbn [andb].
    destruct (length (extract_plan leaf) =? 0)%nat;
      cbn [time_time snd reads start_time set_start_time]; done.
Qed.

End SearchTiming.

(** ** The hub and its cells: runs with large counts *)

Section StarRuns.
Variable clock : nat → Q.
Import FrontierDFS.

Abbreviation star_search :=
  (graph_search Star.applicable Star.transition Star.goal_test clock).

(** The [for] loop over jumps to new, pairwise different cells adds all of
    them, in order. *)
Lemma star_for_loop (ex : gset nat) l (fr0 : FrontierDFS.t nat nat) :
  NoDup l →
  (∀ d, d ∈ l → (d ∉ ex) ∧ (d ∉ set fr0)) →
  ∃ X, fold_left (expand_child Star.transition Star.hub ex)
         ((λ d, [d]) <$> l) fr0
       = {| stack := stack fr0 ++ (Star.cell <$> l); set := X |}
       ∧ ∀ x, x ∈ X ↔ x ∈ l ∨ x ∈ set fr0.
Proof.
  revert fr0. induction l as [|d l IH]; intros fr0 Hnd Hnew.
  - exists (set fr0). simpl. rewrite app_nil_r. split; [by destruct fr0|].
    set_solver.
  - apply NoDup_cons in Hnd as [Hd Hnd].
    destruct (Hnew d) as [Hex Hfr]; [set_solver|].
    rewrite fmap_cons. cbn [fold_left].
    assert (Hadd : expand_child Star.transition Star.hub ex fr0 [d]
                   = add fr0 (Star.cell d)).
    { unfold expand_child. fold (Star.cell d).
      change (conf (Star.cell d)) with d.
      rewrite (bool_decide_eq_false_2 _ Hex).
      unfold contains. change (conf (Star.cell d)) with d.
      by rewrite (bool_decide_eq_false_2 _ Hfr). }
    rewrite Hadd.
    destruct (IH (add fr0 (Star.cell d)) Hnd) as (X & -> & HX).
    { intros d' Hd'. destruct (Hnew d') as [Hex' Hfr']; [set_solver|].
      split; [done|]. cbn [add set]. change (conf (Star.cell d)) with d.
      set_solver. }
    exists X. split.
    + cbn [add stack]. by rewrite <- app_assoc.
    + intros x. rewrite HX. cbn [add set].
      change (conf (Star.cell d)) with d. set_solver.
Qed.

(** The search from the hub for the last of [n] cells: one pass expands the
    hub, the next pops the last cell, which is the goal; the plan has one
    step and the frontier holds the other [n - 1] cells, so that the count
    that goes into the status text is [n]. *)
Lemma star_search_outcome n fuel (fr : FrontierDFS.t nat nat) w :
  1 ≤ n →
  fst (star_search (S (S fuel)) Star.hub (Star.cells n) n fr w)
  = match Py.reported_count (Z.of_nat n) with
    | None => Py.Raises Py.ValueError
    | Some q =>
        Py.Returns (true, [[n]], Py.PyFloat q,
                    Py.round3 (clock (S (reads w)) - clock (reads w))%Q)
    end.
Proof.
  intros Hn. destruct n as [|m]; [lia|].
  unfold graph_search. rewrite search_loop_unfold.
  replace (is_empty (frontier (enter clock Star.hub (S m) fr w)))
    with false by reflexivity.
  assert (Hpop : pop (frontier (enter clock Star.hub (S m) fr w))
                 = (inr Star.hub, init)).
  { unfold enter, pop. simpl. unfold set_remove.
    rewrite decide_True by set_solver. do 2 f_equal;
      unfold init; f_equal; set_solver. }
  rewrite Hpop.
  change (is_goal Star.goal_test (S m) Star.hub) with false.
  rewrite search_loop_unfold.
  unfold expand at 1 2 3. cbn [frontier explored popped].
  change (get_applicable_actions Star.applicable Star.hub
            (Star.cells (S m)))
    with ((λ d, [d]) <$> seq 1 (S m)).
  destruct (star_for_loop
              ({[conf Star.hub]}
               ∪ explored (enter clock Star.hub (S m) fr w))
              (seq 1 (S m)) init) as (X & -> & HX).
  { apply NoDup_seq. }
  { intros d Hd%elem_of_seq. split; [|set_solver].
    change (explored (enter clock Star.hub (S m) fr w)) with (∅ : gset nat).
    change (conf Star.hub) with 0. set_solver by lia. }
  rewrite seq_S, fmap_app. cbn [stack init app fmap list_fmap].
  replace (is_empty _) with false.
  2:{ unfold is_empty. cbn [stack]. rewrite length_app. simpl.
      symmetry. apply Nat.eqb_neq. lia. }
  assert (Hpop2 : pop {| stack := (Star.cell <$> seq 1 m)
                                  ++ [Star.cell (1 + m)];
                         set := X |}
                  = (inr (Star.cell (S m)),
                     {| stack := Star.cell <$> seq 1 m;
                        set := X ∖ {[S m]} |})).
  { unfold pop. cbn [stack set]. rewrite list_pop_snoc.
    unfold set_remove. change (conf (Star.cell (1 + m))) with (S m).
    rewrite decide_True; [done|]. apply HX. left.
    apply elem_of_seq. lia. }
  rewrite Hpop2.
  replace (is_goal Star.goal_test (S m) (Star.cell (S m))) with true
    by (symmetry; apply Nat.eqb_refl).
  rewrite return_goal_spec.
  cbn [fst frontier popped outside].
  change (extract_plan (Star.cell (S m))) with [[S m]].
  cbn [length Nat.eqb].
  replace (Z.of_nat 1 + size {| stack := Star.cell <$> seq 1 m;
                                set := X ∖ {[S m]} |})%Z
    with (Z.of_nat (S m)).
  2:{ unfold size. cbn [stack]. rewrite length_fmap, length_seq. lia. }
  replace (is_goal Star.goal_test (S m) (Star.cell (S m))) with true
    by (symmetry; apply Nat.eqb_refl).
  change (outside (expand _ _ _ _ (popped _ ?st))) with (outside st).
  by rewrite enter_world.
Qed.

(** X12. A search can find the goal and yet end with an exception: from the
    hub with a million cells or more, of which the last is the goal,
    [graph_search] raises [ValueError], for the count of the status text
    cannot be read back. *)
Theorem graph_search_can_raise n fuel (fr : FrontierDFS.t nat nat) w :
  (1000000 ≤ Z.of_nat n)%Z →
  fst (star_search (S (S fuel)) Star.hub (Star.cells n) n fr w)
  = Py.Raises Py.ValueError.
Proof.
  intros Hn. rewrite star_search_outcome by lia.
  by rewrite reported_count_millions by lia.
Qed.

(** A search can return a count a thousand times too small: from the hub
    with a thousand cells or more, and fewer than a million, of which the
    last is the goal, [n] states have been generated besides the hub, and
    the count in the result is [n] divided by one thousand. *)
Lemma graph_search_can_miscount n fuel (fr : FrontierDFS.t nat nat) w :
  (1000 ≤ Z.of_nat n < 1000000)%Z →
  ∃ t, fst (star_search (S (S fuel)) Star.hub (Star.cells n) n fr w)
       = Py.Returns (true, [[n]], Py.PyFloat (Qmake (Z.of_nat n) 1000), t).
Proof.
  intros Hn. rewrite star_search_outcome by lia.
  rewrite reported_count_thousands by lia. eauto.
Qed.

End StarRuns.

(** ** The further properties at work *)

Section MoreRuns.
Import Corridor.

Abbreviation cell_3_search := (Corridor.run 10 Corridor.start 3).
Abbreviation hub_search :=
  (graph_search Star.applicable Star.transition Star.goal_test clock 2
     Star.hub (Star.cells 1200) 1200 FrontierDFS.init fresh_world).

Lemma failure_explores_all_reachable_witness :
  fst (Corridor.run 10 start 7)
  = Py.Returns (false, [], Py.PyInt 5, ((1 # 4) - (0 # 4))%Q)
  ∧ (∀ c, reachable applicable transition action_set (conf start) c →
          goal_test 7 c = false)
  ∧ Py.PyInt 5
    = Py.PyInt (Z.of_nat (size (explored (snd (Corridor.run 10 start 7))))).
Proof.
  assert (Hrun : fst (Corridor.run 10 start 7)
                 = Py.Returns (false, [], Py.PyInt 5, ((1 # 4) - (0 # 4))%Q))
    by (vm_compute; reflexivity).
  split; [exact Hrun|].
  exact (proj2 (failure_explores_all_reachable applicable transition
                  goal_test clock 10 start action_set 7 FrontierDFS.init
                  fresh_world _ _ _ Hrun)).
Defined.

Lemma corridor_closed c a :
  c ∈ cells → a ∈ applicable c action_set → transition c a ∈ cells.
Proof.
  unfold cells, applicable, action_set.
  rewrite !elem_of_list_to_set, !elem_of_seq.
  intros Hc (d & -> & Hd)%list_elem_of_fmap.
  apply list_elem_of_filter in Hd as [Hd _]. unfold transition. simpl. lia.
Qed.

Lemma graph_search_terminates_witness :
  (conf start ∈ cells
   ∧ (∀ c a, c ∈ cells → a ∈ applicable c action_set →
             transition c a ∈ cells)
   ∧ size cells < 10)
  ∧ fst (Corridor.run 10 start 3) ≠ Py.OutOfFuel
  ∧ Corridor.run 10 start 3 = Corridor.run (S (size cells)) start 3.
Proof.
  assert (Hstart : conf start ∈ cells) by (vm_compute; reflexivity).
  assert (Hsize : size cells < 10) by (vm_compute; lia).
  split; [split_and!; [exact Hstart | exact corridor_closed | exact Hsize]|].
  exact (graph_search_terminates applicable transition goal_test clock
           cells 10 start action_set 3 FrontierDFS.init fresh_world
           Hstart corridor_closed Hsize).
Defined.

Lemma plan_visits_no_configuration_twice_witness :
  fst (Corridor.run 10 start 3)
  = Py.Returns (true, [[2]; [1]], Py.PyFloat (3 # 1), (250 # 1000)%Q)
  ∧ NoDup (visited transition (conf start) [[2]; [1]]).
Proof.
  assert (Hrun : fst (Corridor.run 10 start 3)
                 = Py.Returns (true, [[2]; [1]], Py.PyFloat (3 # 1),
                               (250 # 1000)%Q))
    by (vm_compute; reflexivity).
  split; [exact Hrun|].
  exact (plan_visits_no_configuration_twice applicable transition goal_test
           clock 10 start action_set 3 FrontierDFS.init fresh_world
           _ _ _ Hrun).
Defined.

Lemma generated_count_value_witness :
  fst hub_search
  = Py.Returns (true, [[1200]], Py.PyFloat (Qmake (Z.of_nat 1200) 1000),
                Py.round3 (clock 1 - clock 0)%Q)
  ∧ (Z.of_nat (length [[1200]])
     + FrontierDFS.size (frontier (snd hub_search)) < 1000000)%Z
  ∧ Py.PyFloat (Qmake (Z.of_nat 1200) 1000)
    = Py.PyFloat
        (if (Z.of_nat (length [[1200]])
             + FrontierDFS.size (frontier (snd hub_search)) <? 1000)%Z
         then inject_Z
                (Z.of_nat (length [[1200]])
                 + FrontierDFS.size (frontier (snd hub_search)))
         else Qmake
                (Z.of_nat (length [[1200]])
                 + FrontierDFS.size (frontier (snd hub_search))) 1000).
Proof.
  assert (Hrun : fst hub_search
                 = Py.Returns (true, [[1200]],
                               Py.PyFloat (Qmake (Z.of_nat 1200) 1000),
                               Py.round3 (clock 1 - clock 0)%Q)).
  { rewrite (star_search_outcome clock 1200 0) by lia.
    by rewrite reported_count_thousands by lia. }
  split; [exact Hrun|].
  exact (generated_count_value Star.applicable Star.transition Star.goal_test
           clock 2 Star.hub (Star.cells 1200) 1200 FrontierDFS.init
           fresh_world _ _ _ Hrun).
Defined.

Lemma pop_reverses_add_witness :
  (NoDup (conf <$> [start; next])
   ∧ ∀ s, s ∈ [start; next] → FrontierDFS.contains FrontierDFS.init s = false)
  ∧ FrontierDFS.pop_n 2 (FrontierDFS.add_all [start; next] FrontierDFS.init)
    = (inr [next; start], FrontierDFS.init).
Proof.
  assert (Hnd : NoDup (conf <$> [start; next])).
  { simpl. repeat constructor; set_solver. }
  assert (Hnew : ∀ s, s ∈ [start; next] →
                      FrontierDFS.contains FrontierDFS.init s = false).
  { intros s _. apply bool_decide_eq_false. set_solver. }
  split; [split; [exact Hnd | exact Hnew]|].
  exact (pop_reverses_add [start; next] FrontierDFS.init init_consistent
           Hnd Hnew).
Defined.

Lemma duplicate_add_hides_state_witness :
  FrontierDFS.contains (FrontierDFS.add FrontierDFS.init start) start = true
  ∧ ∃ f', FrontierDFS.pop
            (FrontierDFS.add (FrontierDFS.add FrontierDFS.init start) start)
          = (inr start, f')
          ∧ FrontierDFS.stack f' = [start]
          ∧ FrontierDFS.contains f' start = false
          ∧ conf start ∈ conf <$> FrontierDFS.stack f'.
Proof.
  assert (Hc : FrontierDFS.contains (FrontierDFS.add FrontierDFS.init start)
                 start = true) by (vm_compute; reflexivity).
  split; [exact Hc|].
  assert (Hf : FrontierDFS.consistent
                 (FrontierDFS.add (FrontierDFS.init : FrontierDFS.t nat nat)
                    start)).
  { apply add_consistent; [apply init_consistent | reflexivity]. }
  exact (duplicate_add_hides_state (FrontierDFS.add FrontierDFS.init start)
           start Hf Hc).
Defined.

Lemma pop_key_error_drops_state_witness :
  (FrontierDFS.stack stale = [] ++ [start]
   ∧ conf start ∉ FrontierDFS.set stale)
  ∧ FrontierDFS.pop stale
    = (inl Py.KeyError,
       {| FrontierDFS.stack := []; FrontierDFS.set := FrontierDFS.set stale |}).
Proof.
  assert (Hnot : conf start ∉ FrontierDFS.set stale) by set_solver.
  split; [split; [reflexivity | exact Hnot]|].
  exact (pop_key_error_drops_state stale [] start eq_refl Hnot).
Defined.

Lemma graph_search_clock_readings_witness :
  fst (Corridor.run 1 start 0)
  = Py.Returns (true, [], Py.PyFloat (0 # 1), (250 # 1000)%Q)
  ∧ reads (outside (snd (Corridor.run 1 start 0))) = 3
  ∧ start_time (outside (snd (Corridor.run 1 start 0))) = clock 1
  ∧ (250 # 1000)%Q = Py.round3 (clock 2 - clock 1)%Q.
Proof.
  assert (Hrun : fst (Corridor.run 1 start 0)
                 = Py.Returns (true, [], Py.PyFloat (0 # 1), (250 # 1000)%Q))
    by (vm_compute; reflexivity).
  split; [exact Hrun|].
  exact (graph_search_clock_readings applicable transition goal_test clock
           1 start action_set 0 FrontierDFS.init fresh_world
           _ _ _ _ Hrun).
Defined.

Lemma graph_search_can_raise_witness :
  (1000000 ≤ Z.of_nat (1000 * 1000))%Z
  ∧ fst (graph_search Star.applicable Star.transition Star.goal_test clock
           2 Star.hub (Star.cells (1000 * 1000)) (1000 * 1000)
           FrontierDFS.init fresh_world)
    = Py.Raises Py.ValueError.
Proof.
  assert (Hn : (1000000 ≤ Z.of_nat (1000 * 1000))%Z) by lia.
  split; [exact Hn|].
  exact (graph_search_can_raise clock (1000 * 1000) 0 FrontierDFS.init
           fresh_world Hn).
Defined.

Lemma corridor_reaches_3 :
  reachable applicable transition action_set (conf start) 3.
Proof.
  change 3 with (transition (transition (conf start) [2]) [1]).
  apply reachable_step; [apply reachable_step; [apply reachable_start|]|];
    unfold applicable, action_set; simpl; set_solver.
Qed.

Lemma graph_search_complete_witness :
  (conf start ∈ cells
   ∧ (∀ c a, c ∈ cells → a ∈ applicable c action_set →
             transition c a ∈ cells)
   ∧ size cells < 10
   ∧ (Z.of_nat (size cells) ≤ 1000000)%Z
   ∧ reachable applicable transition action_set (conf start) 3
   ∧ goal_test 3 3 = true)
  ∧ ∃ plan n t, fst cell_3_search = Py.Returns (true, plan, n, t).
Proof.
  assert (Hstart : conf start ∈ cells) by (vm_compute; reflexivity).
  assert (Hsize : size cells < 10) by (vm_compute; lia).
  assert (Hfive : size cells = 5) by (vm_compute; reflexivity).
  assert (Hmax : (Z.of_nat (size cells) ≤ 1000000)%Z) by (rewrite Hfive; lia).
  split.
  { split_and!; [exact Hstart | exact corridor_closed | exact Hsize
                | exact Hmax | exact corridor_reaches_3 | reflexivity]. }
  exact (graph_search_complete applicable transition goal_test clock
           cells 10 start action_set 3 FrontierDFS.init fresh_world 3
           Hstart corridor_closed Hsize Hmax corridor_reaches_3 eq_refl).
Defined.

Lemma plan_shorter_than_expansions_witness :
  fst cell_3_search
  = Py.Returns (true, [[2]; [1]], Py.PyFloat (3 # 1), (250 # 1000)%Q)
  ∧ (Z.of_nat (length [[2]; [1]]) < iterations (snd cell_3_search))%Z.
Proof.
  assert (Hrun : fst cell_3_search
                 = Py.Returns (true, [[2]; [1]], Py.PyFloat (3 # 1),
                               (250 # 1000)%Q))
    by (vm_compute; reflexivity).
  split; [exact Hrun|].
  exact (plan_shorter_than_expansions applicable transition goal_test clock
           10 start action_set 3 FrontierDFS.init fresh_world _ _ _ Hrun).
Defined.

End MoreRuns.

(** ** Depth first *)

Section DepthFirst.
Context {Config Action Goal : Type} `{Countable Config}.
Variable applicable : Config → list (list Action) → list (list Action).
Variable transition : Config → list Action → Config.
Variable goal_test : Goal → Config → bool.
Implicit Types (st : @search Config Action _ _).
Implicit Types (fr : FrontierDFS.t Config Action).
Implicit Types (leaf : HospitalState Config Action).

(** The [for] loop leaves what was on the stack where it was and puts
    successors of the expanded state on top. *)
Lemma for_loop_suffix leaf (ex : gset Config) todo fr :
  ∃ new,
    FrontierDFS.stack (fold_left (expand_child transition leaf ex) todo fr)
    = FrontierDFS.stack fr ++ new
    ∧ Forall (λ s, ∃ a, a ∈ todo ∧ s = result transition leaf a) new.
Proof.
  revert fr. induction todo as [|a todo IH]; intros fr; simpl.
  { exists []. by rewrite app_nil_r. }
  destruct (IH (expand_child transition leaf ex fr a)) as (new & -> & Hnew).
  assert (Hmore : Forall (λ s, ∃ a', a' ∈ a :: todo
                               ∧ s = result transition leaf a') new).
  { eapply Forall_impl; [exact Hnew|]. intros s (a' & Ha' & ->).
    exists a'. split; [set_solver|done]. }
  destruct (expand_child_cases transition leaf ex fr a)
    as [-> | (-> & _ & _)]; [by exists new|].
  exists (result transition leaf a :: new). simpl.
  rewrite <- app_assoc. split; [done|].
  constructor; [|done]. exists a. split; [set_solver|done].
Qed.

(** X15. The search goes depth first: when a pass of the loop has put
    successors of the expanded state into the frontier, the state that the
    next pass pops is one of these successors. *)
Theorem next_pop_is_successor action_set goal c0 st leaf fr :
  core_inv applicable transition goal_test action_set goal c0 st →
  counted 0 st →
  FrontierDFS.pop (frontier st) = (inr leaf, fr) →
  is_goal goal_test goal leaf = false →
  (FrontierDFS.size fr
   < FrontierDFS.size
       (frontier (expand applicable transition action_set leaf
                    (popped fr st))))%Z →
  ∃ a fr2,
    a ∈ applicable (conf leaf) action_set
    ∧ FrontierDFS.pop
        (frontier (expand applicable transition action_set leaf
                     (popped fr st)))
      = (inr (result transition leaf a), fr2).
Proof.
  intros Hinv Hcount Hpop Hg Hgrew.
  destruct (expand_inv applicable transition goal_test action_set goal c0
              st leaf fr Hinv Hcount Hpop Hg) as [(Hcons & _) _].
  unfold expand, popped in *. cbn [frontier explored] in *.
  destruct (for_loop_suffix leaf ({[conf leaf]} ∪ explored st)
              (get_applicable_actions applicable leaf action_set) fr)
    as (new & Hstack & Hnew).
  unfold FrontierDFS.size in Hgrew. rewrite Hstack, length_app in Hgrew.
  destruct (list_pop_inv new) as (new' & s & ->).
  { intros ->. simpl in Hgrew. lia. }
  apply Forall_app in Hnew as [_ Hs].
  apply Forall_inv in Hs as (a & Ha & ->).
  destruct (pop_consistent _ Hcons) as (s' & f' & Hpop' & Hstack' & _).
  { unfold FrontierDFS.is_empty. rewrite Hstack, !length_app. simpl.
    apply Nat.eqb_neq. lia. }
  rewrite Hstack, app_assoc in Hstack'.
  apply app_inj_tail in Hstack' as [_ <-].
  exists a, f'. by split.
Qed.

End DepthFirst.

Section DepthFirstRun.
Import Corridor.

Abbreviation on_entry := (enter clock start 3 FrontierDFS.init fresh_world).

Lemma next_pop_is_successor_witness :
  (core_inv applicable transition goal_test action_set 3 (conf start)
     on_entry
   ∧ counted 0 on_entry
   ∧ FrontierDFS.pop (frontier on_entry) = (inr start, FrontierDFS.init)
   ∧ is_goal goal_test 3 start = false
   ∧ (FrontierDFS.size (FrontierDFS.init : FrontierDFS.t nat nat)
      < FrontierDFS.size
          (frontier (expand applicable transition action_set start
                       (popped FrontierDFS.init on_entry))))%Z)
  ∧ ∃ a fr2,
      a ∈ applicable (conf start) action_set
      ∧ FrontierDFS.pop
          (frontier (expand applicable transition action_set start
                       (popped FrontierDFS.init on_entry)))
        = (inr (result transition start a), fr2).
Proof.
  destruct (enter_inv applicable transition goal_test clock action_set 3
              (conf start) start FrontierDFS.init fresh_world eq_refl)
    as [Hinv Hcount].
  assert (Hpop : FrontierDFS.pop (frontier on_entry)
                 = (inr start, FrontierDFS.init))
    by (vm_compute; reflexivity).
  assert (Hg : is_goal goal_test 3 start = false) by reflexivity.
  assert (Hgrew : (FrontierDFS.size (FrontierDFS.init : FrontierDFS.t nat nat)
                   < FrontierDFS.size
                       (frontier (expand applicable transition action_set
                                    start
                                    (popped FrontierDFS.init on_entry))))%Z)
    by (vm_compute; reflexivity).
  split; [by split_and!|].
  exact (next_pop_is_successor applicable transition goal_test action_set 3
           (conf start) on_entry start FrontierDFS.init Hinv Hcount Hpop Hg
           Hgrew).
Defined.

End DepthFirstRun.
